(** * Atlas-AI persistence layer: [lib/db/mongoose-schema.ts] and [lib/db/queries.ts]

    A shallow embedding of the schema layer (seven Mongoose models) and of the
    query layer (the exported functions of [queries.ts]), followed by the
    properties of the query layer.

    Conventions.
    - A collection is the list of its documents in insertion order, which is
      the order a query without [sort] answers in.
    - A [Date] is its number of milliseconds since the epoch; numbers are
      integral.
    - The length of a string is counted in characters of [string].
    - An asynchronous function is a computation over a [World]: what the
      module imports, the database, the wall clock, a counter of the random
      draws made so far, the schedule of failures of the coming round
      trips to the store, and the record of the failures the store
      operations have met so far. The code reads none of the last two.
    - [throw] and [try ... catch] are [throw] and [try_catch]; the state
      reached when an exception is raised is kept, as in JavaScript. *)

From Stdlib Require Import String List ZArith Lia Bool Arith DecimalString.
From Stdlib Require Import Sorted Permutation.
Import ListNotations.

Local Open Scope string_scope.
Local Open Scope list_scope.

(** ** JavaScript values used by the query layer *)

Module Js.

(** [if (s)] on a [string | null]: [null] and the empty string are falsy. *)
Definition truthy (s : option string) : bool :=
  match s with
  | None => false
  | Some x => negb (x =? "")
  end.

(** [arr.slice(0, end)] for an integral [end]; a negative [end] counts from
    the end of the array. *)
Definition slice0 {A : Type} (e : Z) (arr : list A) : list A :=
  if (e <? 0)%Z
  then firstn (Z.to_nat (Z.of_nat (length arr) + e)) arr
  else firstn (Z.to_nat e) arr.

(** The string a [string | null] stands for where the code has already
    tested it truthy; [`${null}`] is ["null"]. *)
Definition str (s : option string) : string :=
  match s with
  | None => "null"
  | Some x => x
  end.

(** [new Date(t)] is a date when [t] is a time value: at most 8.64e15 ms
    away from the epoch. Otherwise it is an Invalid Date. *)
Definition timeValue (t : Z) : bool := (Z.abs t <=? 8640000000000000)%Z.

(** An object literal: its own enumerable properties, in order. *)
Definition Obj := list (string * string).

Definition keys (o : Obj) : list string := map fst o.

Fixpoint get (k : string) (o : Obj) : option string :=
  match o with
  | [] => None
  | (k', v) :: o' => if k' =? k then Some v else get k o'
  end.

End Js.


(** ** Schema layer: [mongoose-schema.ts] *)

Definition ObjectId := string.
Definition Date := Z.
(** [Schema.Types.Mixed]: an opaque payload, or [null]/[undefined]. *)
Definition Mixed := option string.

(** A stored document: the fields of its interface and the [_id] every
    [MongooseDocument] carries. *)
Record Doc (A : Type) := {
  _id : ObjectId;
  fields : A }.
Arguments _id {A} d.
Arguments fields {A} d.

Record IUser := {
  user_id : string;
  user_email : string;
  user_password : option string }.

(** The object handed to [User.create]: any path may be left out. *)
Record UserInput := {
  in_id : option string;
  in_email : option string;
  in_password : option string }.

Inductive VisibilityType := public | private.

Record IChat := {
  chat_id : string;
  chat_createdAt : Date;
  chat_title : string;
  chat_userId : string;
  chat_visibility : VisibilityType }.

Record IDBMessage := {
  msg_id : string;
  msg_chatId : string;
  msg_role : string;
  msg_parts : Mixed;
  msg_attachments : Mixed;
  msg_createdAt : Date }.

Record IVote := {
  vote_chatId : string;
  vote_messageId : string;
  vote_isUpvoted : bool }.

Inductive ArtifactKind := text | code | image | sheet.

Record IDocument := {
  doc_id : string;
  doc_createdAt : Date;
  doc_title : string;
  doc_content : option string;
  doc_kind : ArtifactKind;
  doc_userId : string }.

Record ISuggestion := {
  sug_id : string;
  sug_documentId : string;
  sug_documentCreatedAt : Date;
  sug_originalText : string;
  sug_suggestedText : string;
  sug_description : option string;
  sug_isResolved : bool;
  sug_userId : string;
  sug_createdAt : Date }.

Record IStream := {
  stream_id : string;
  stream_chatId : string;
  stream_createdAt : Date }.

(** The state of the backing store: one collection per model. *)
Record Database := {
  users : list (Doc IUser);
  chats : list (Doc IChat);
  messages : list (Doc IDBMessage);
  votes : list (Doc IVote);
  documents : list (Doc IDocument);
  suggestions : list (Doc ISuggestion);
  streams : list (Doc IStream) }.

Definition emptyDb : Database :=
  {| users := []; chats := []; messages := []; votes := [];
     documents := []; suggestions := []; streams := [] |}.

(** ** Errors *)

(** What Mongoose or the driver rejects a request with. *)
Inductive StoreError :=
| ValidationError (path : string)
| CastError (path : string)
| DuplicateKeyError (index : string)
| ConnectionError.

(** [new ChatSDKError(code, text)] of [lib/errors]: the kind and the
    human-readable text given at the throw site. *)
Record ChatSDKError := {
  kind : string;
  message : string }.

Inductive Exn :=
| EStore (e : StoreError)
| EChatSDK (e : ChatSDKError).

Inductive Result (A : Type) :=
| Ok (a : A)
| Throw (e : Exn).
Arguments Ok {A} a.
Arguments Throw {A} e.

(** ** Computations *)

(** What the module imports and this repository part does not define: the
    password hasher of [./utils] (salted: it takes a draw), the UUID
    generator of [../utils], the driver's ObjectId generator, and the string
    Mongoose casts a document projected on [_id] to when it meets one where
    a [String] path is queried. *)
Record Env := {
  generateHashedPassword : string -> nat -> string;
  generateUUID : nat -> string;
  newObjectId : nat -> ObjectId;
  docToString : ObjectId -> string }.

Record World := {
  env : Env;
  db : Database;
  clock : Z;
  draws : nat;
  faults : list bool;
  failures : list StoreError }.

Definition M (A : Type) : Type := World -> Result A * World.

Definition ret {A} (a : A) : M A := fun w => (Ok a, w).

Definition bind {A B} (m : M A) (k : A -> M B) : M B :=
  fun w =>
    match m w with
    | (Ok a, w') => k a w'
    | (Throw e, w') => (Throw e, w')
    end.

Definition throw {A} (e : Exn) : M A := fun w => (Throw e, w).

Definition try_catch {A} (body : M A) (handler : Exn -> M A) : M A :=
  fun w =>
    match body w with
    | (Ok a, w') => (Ok a, w')
    | (Throw e, w') => handler e w'
    end.

Declare Scope m_scope.
Delimit Scope m_scope with M.
Notation "x <- m ;; k" := (bind m (fun x => k))
  (at level 61, m at next level, right associativity) : m_scope.
Notation "m ;;; k" := (bind m (fun _ => k))
  (at level 61, right associativity) : m_scope.
Local Open Scope m_scope.

Definition setDb (d : Database) (w : World) : World :=
  {| env := env w; db := d; clock := clock w; draws := draws w; faults := faults w;
     failures := failures w |}.

Definition setFaults (fs : list bool) (w : World) : World :=
  {| env := env w; db := db w; clock := clock w; draws := draws w; faults := fs;
     failures := failures w |}.

(** Enters a failure of a store operation in the record. *)
Definition noteFailure (e : StoreError) (w : World) : World :=
  {| env := env w; db := db w; clock := clock w; draws := draws w; faults := faults w;
     failures := failures w ++ [e] |}.

(** A store operation fails with [e]: the failure is recorded and raised. *)
Definition refuse {A} (e : StoreError) : M A :=
  fun w => (Throw (EStore e), noteFailure e w).

(** What a store operation answered, entered in the record if it is a
    failure. *)
Definition noteAnswer {A} (r : Result A) (w : World) : World :=
  match r with
  | Throw (EStore e) => noteFailure e w
  | _ => w
  end.

(** [Date.now()] and [new Date()]. *)
Definition Date_now : M Z := fun w => (Ok (clock w), w).

(** One random draw (a UUID, a salt, an ObjectId): its index. *)
Definition draw : M nat :=
  fun w => (Ok (draws w),
            {| env := env w; db := db w; clock := clock w;
               draws := S (draws w); faults := faults w; failures := failures w |}).

Definition asks {A} (f : Env -> A) : M A := fun w => (Ok (f (env w)), w).

(** One round trip to the store. The next entry of the failure schedule
    decides whether the request is lost; a lost request changes nothing.
    A lost request and a request the store refuses are failures. *)
Definition roundTrip {A} (op : Database -> Result A * Database) : M A :=
  fun w =>
    match faults w with
    | true :: fs =>
        (Throw (EStore ConnectionError), noteFailure ConnectionError (setFaults fs w))
    | fs =>
        let '(r, d) := op (db w) in
        (r, noteAnswer r (setDb d (setFaults (tl fs) w)))
    end.

(** ** Mongoose: models, queries and write operations *)

(** A model: its collection, the casting and validation of what is handed to
    [create]/[insertMany] (schema order, first failing path), and its unique
    indexes, each as the test that two documents share the key. *)
Record Model (I A : Type) := {
  coll : Database -> list (Doc A);
  setColl : list (Doc A) -> Database -> Database;
  castInput : I -> StoreError + A;
  indexes : list (string * (A -> A -> bool)) }.
Arguments coll {I A} m d.
Arguments setColl {I A} m c d.
Arguments castInput {I A} m i.
Arguments indexes {I A} m.

(** A query under construction: [Model.find(filter)], then [where],
    [sort], [limit]; nothing is sent before [exec]. *)
Record Query (A : Type) := {
  q_coll : Database -> list (Doc A);
  q_filter : Doc A -> bool;
  q_sort : option (Doc A -> Doc A -> bool);
  q_limit : option Z }.
Arguments q_coll {A} q d.
Arguments q_filter {A} q d.
Arguments q_sort {A} q.
Arguments q_limit {A} q.

Section Sorting.
Context {A : Type} (le : A -> A -> bool).

Fixpoint insertSorted (x : A) (l : list A) : list A :=
  match l with
  | [] => [x]
  | y :: l' => if le x y then x :: y :: l' else y :: insertSorted x l'
  end.

(** A stable sort: documents that compare equal keep their natural order. *)
Fixpoint sortBy (l : list A) : list A :=
  match l with
  | [] => []
  | x :: l' => insertSorted x (sortBy l')
  end.

End Sorting.

(** [cursor.limit(n)] of the store: [0] is no limit, a negative [n] is a
    limit of [-n]. *)
Definition applyLimit {A} (n : Z) (l : list A) : list A :=
  if (n =? 0)%Z then l else firstn (Z.abs_nat n) l.

Definition find {I A} (m : Model I A) (p : Doc A -> bool) : Query A :=
  {| q_coll := coll m; q_filter := p; q_sort := None; q_limit := None |}.

Definition where_ {A} (q : Query A) (p : Doc A -> bool) : Query A :=
  {| q_coll := q_coll q; q_filter := fun d => q_filter q d && p d;
     q_sort := q_sort q; q_limit := q_limit q |}.

Definition sort {A} (q : Query A) (le : Doc A -> Doc A -> bool) : Query A :=
  {| q_coll := q_coll q; q_filter := q_filter q;
     q_sort := Some le; q_limit := q_limit q |}.

Definition limit {A} (q : Query A) (n : Z) : Query A :=
  {| q_coll := q_coll q; q_filter := q_filter q;
     q_sort := q_sort q; q_limit := Some n |}.

(** What the store answers to a query. *)
Definition answer {A} (q : Query A) (d : Database) : list (Doc A) :=
  let matching := filter (q_filter q) (q_coll q d) in
  let sorted := match q_sort q with
                | Some le => sortBy le matching
                | None => matching
                end in
  match q_limit q with
  | Some n => applyLimit n sorted
  | None => sorted
  end.

Definition exec {A} (q : Query A) : M (list (Doc A)) :=
  roundTrip (fun d => (Ok (answer q d), d)).

(** [Model.findOne(...)...exec()]: the first document of the answer, or [null]. *)
Definition execOne {A} (q : Query A) : M (option (Doc A)) :=
  roundTrip (fun d => (Ok (hd_error (answer q d)), d)).

Definition countDocuments {I A} (m : Model I A) (p : Doc A -> bool) : M nat :=
  roundTrip (fun d => (Ok (length (filter p (coll m d))), d)).

(** [deleteMany]: the result carries [deletedCount]. *)
Definition deleteMany {I A} (m : Model I A) (p : Doc A -> bool) : M nat :=
  roundTrip (fun d =>
    (Ok (length (filter p (coll m d))),
     setColl m (filter (fun x => negb (p x)) (coll m d)) d)).

Fixpoint removeFirst {A} (p : A -> bool) (l : list A) : list A :=
  match l with
  | [] => []
  | x :: l' => if p x then l' else x :: removeFirst p l'
  end.

(** [deleteOne]: only the first match goes. *)
Definition deleteOne {I A} (m : Model I A) (p : Doc A -> bool) : M nat :=
  roundTrip (fun d =>
    (Ok (if existsb p (coll m d) then 1 else 0),
     setColl m (removeFirst p (coll m d)) d)).

Fixpoint updateFirst {A} (p : A -> bool) (f : A -> A) (l : list A) : list A :=
  match l with
  | [] => []
  | x :: l' => if p x then f x :: l' else x :: updateFirst p f l'
  end.

Definition onFields {A} (f : A -> A) (d : Doc A) : Doc A :=
  {| _id := _id d; fields := f (fields d) |}.

(** [updateOne(filter, update)]: the first match is updated; the result
    carries [matchedCount]. *)
Definition updateOne {I A} (m : Model I A) (p : Doc A -> bool) (f : A -> A) : M nat :=
  roundTrip (fun d =>
    (Ok (if existsb p (coll m d) then 1 else 0),
     setColl m (updateFirst p (onFields f) (coll m d)) d)).

(** The first unique index a new document would violate. *)
Definition violated {A} (ixs : list (string * (A -> A -> bool)))
    (a : A) (c : list (Doc A)) : option string :=
  option_map fst
    (List.find (fun ix => existsb (fun d => snd ix a (fields d)) c) ixs).

(** [Model.create(input)]: the document is built and validated by Mongoose,
    which throws before anything is sent; the store then checks the unique
    indexes and appends. *)
Definition create {I A} (m : Model I A) (input : I) : M (Doc A) :=
  n <- draw ;;
  oid <- asks (fun e => newObjectId e n) ;;
  match castInput m input with
  | inl e => refuse e
  | inr a =>
      roundTrip (fun d =>
        match violated (indexes m) a (coll m d) with
        | Some ix => (Throw (EStore (DuplicateKeyError ix)), d)
        | None =>
            let doc := {| _id := oid; fields := a |} in
            (Ok doc, setColl m (coll m d ++ [doc]) d)
        end)
  end.

Fixpoint castAll {I A} (cast : I -> StoreError + A) (l : list I) : StoreError + list A :=
  match l with
  | [] => inr []
  | i :: l' =>
      match cast i with
      | inl e => inl e
      | inr a =>
          match castAll cast l' with
          | inl e => inl e
          | inr l'' => inr (a :: l'')
          end
      end
  end.

(** An ordered bulk insert: documents go in one after the other and the
    first duplicate key stops it, the earlier ones staying in. *)
Fixpoint insertOrdered {A} (ixs : list (string * (A -> A -> bool)))
    (oid : nat -> ObjectId) (n : nat) (l : list A) (c : list (Doc A))
    : Result (list (Doc A)) * list (Doc A) :=
  match l with
  | [] => (Ok [], c)
  | a :: l' =>
      match violated ixs a c with
      | Some ix => (Throw (EStore (DuplicateKeyError ix)), c)
      | None =>
          let doc := {| _id := oid n; fields := a |} in
          match insertOrdered ixs oid (S n) l' (c ++ [doc]) with
          | (Ok ds, c') => (Ok (doc :: ds), c')
          | (Throw e, c') => (Throw e, c')
          end
      end
  end.

Definition drawMany (k : nat) : M nat :=
  fun w => (Ok (draws w),
            {| env := env w; db := db w; clock := clock w;
               draws := k + draws w; faults := faults w; failures := failures w |}).

(** [Model.insertMany(inputs)]: all documents are validated first, and
    nothing is sent when one of them is invalid, or when there is none. *)
Definition insertMany {I A} (m : Model I A) (inputs : list I) : M (list (Doc A)) :=
  n <- drawMany (length inputs) ;;
  oid <- asks newObjectId ;;
  match castAll (castInput m) inputs with
  | inl e => refuse e
  | inr [] => ret []
  | inr l =>
      roundTrip (fun d =>
        let '(r, c) := insertOrdered (indexes m) oid n l (coll m d) in
        (r, setColl m c d))
  end.

(** ** The seven models *)

Fixpoint firstError (l : list (option StoreError)) : option StoreError :=
  match l with
  | [] => None
  | Some e :: _ => Some e
  | None :: l' => firstError l'
  end.

Definition validated {A} (a : A) (checks : list (option StoreError)) : StoreError + A :=
  match firstError checks with
  | Some e => inl e
  | None => inr a
  end.

(** [required: true] on a [String] path: the empty string is rejected too. *)
Definition requiredString (path v : string) : option StoreError :=
  if v =? "" then Some (ValidationError path) else None.

Definition requiredMixed (path : string) (v : Mixed) : option StoreError :=
  match v with
  | None => Some (ValidationError path)
  | Some _ => None
  end.

Definition maxlength (path : string) (n : nat) (v : string) : option StoreError :=
  if (n <? String.length v)%nat then Some (ValidationError path) else None.

Definition castUser (i : UserInput) : StoreError + IUser :=
  match in_id i, in_email i with
  | None, _ => inl (ValidationError "id")
  | Some _, None => inl (ValidationError "email")
  | Some id, Some email =>
      validated
        {| user_id := id; user_email := email; user_password := in_password i |}
        [ requiredString "id" id;
          requiredString "email" email;
          maxlength "email" 64 email;
          match in_password i with
          | Some p => maxlength "password" 64 p
          | None => None
          end ]
  end.

Definition User : Model UserInput IUser :=
  {| coll := users;
     setColl := fun c d =>
       {| users := c; chats := chats d; messages := messages d; votes := votes d;
          documents := documents d; suggestions := suggestions d; streams := streams d |};
     castInput := castUser;
     indexes :=
       [ ("id_1", fun a b => user_id a =? user_id b);
         ("email_1", fun a b => user_email a =? user_email b) ] |}.

Definition Chat : Model IChat IChat :=
  {| coll := chats;
     setColl := fun c d =>
       {| users := users d; chats := c; messages := messages d; votes := votes d;
          documents := documents d; suggestions := suggestions d; streams := streams d |};
     castInput := fun a =>
       validated a
         [ requiredString "id" (chat_id a);
           requiredString "title" (chat_title a);
           requiredString "userId" (chat_userId a) ];
     indexes := [ ("id_1", fun a b => chat_id a =? chat_id b) ] |}.

Definition Message : Model IDBMessage IDBMessage :=
  {| coll := messages;
     setColl := fun c d =>
       {| users := users d; chats := chats d; messages := c; votes := votes d;
          documents := documents d; suggestions := suggestions d; streams := streams d |};
     castInput := fun a =>
       validated a
         [ requiredString "id" (msg_id a);
           requiredString "chatId" (msg_chatId a);
           requiredString "role" (msg_role a);
           requiredMixed "parts" (msg_parts a);
           requiredMixed "attachments" (msg_attachments a) ];
     indexes := [ ("id_1", fun a b => msg_id a =? msg_id b) ] |}.

Definition Vote : Model IVote IVote :=
  {| coll := votes;
     setColl := fun c d =>
       {| users := users d; chats := chats d; messages := messages d; votes := c;
          documents := documents d; suggestions := suggestions d; streams := streams d |};
     castInput := fun a =>
       validated a
         [ requiredString "chatId" (vote_chatId a);
           requiredString "messageId" (vote_messageId a) ];
     indexes :=
       [ ("chatId_1_messageId_1",
          fun a b => (vote_chatId a =? vote_chatId b)
                     && (vote_messageId a =? vote_messageId b)) ] |}.

Definition Document : Model IDocument IDocument :=
  {| coll := documents;
     setColl := fun c d =>
       {| users := users d; chats := chats d; messages := messages d; votes := votes d;
          documents := c; suggestions := suggestions d; streams := streams d |};
     castInput := fun a =>
       validated a
         [ requiredString "id" (doc_id a);
           requiredString "title" (doc_title a);
           requiredString "userId" (doc_userId a) ];
     indexes :=
       [ ("id_1", fun a b => doc_id a =? doc_id b);
         ("id_1_createdAt_1",
          fun a b => (doc_id a =? doc_id b)
                     && (doc_createdAt a =? doc_createdAt b)%Z) ] |}.

Definition Suggestion : Model ISuggestion ISuggestion :=
  {| coll := suggestions;
     setColl := fun c d =>
       {| users := users d; chats := chats d; messages := messages d; votes := votes d;
          documents := documents d; suggestions := c; streams := streams d |};
     castInput := fun a =>
       validated a
         [ requiredString "id" (sug_id a);
           requiredString "documentId" (sug_documentId a);
           requiredString "originalText" (sug_originalText a);
           requiredString "suggestedText" (sug_suggestedText a);
           requiredString "userId" (sug_userId a) ];
     indexes := [ ("id_1", fun a b => sug_id a =? sug_id b) ] |}.

Definition Stream : Model IStream IStream :=
  {| coll := streams;
     setColl := fun c d =>
       {| users := users d; chats := chats d; messages := messages d; votes := votes d;
          documents := documents d; suggestions := suggestions d; streams := c |};
     castInput := fun a =>
       validated a
         [ requiredString "id" (stream_id a);
           requiredString "chatId" (stream_chatId a) ];
     indexes := [ ("id_1", fun a b => stream_id a =? stream_id b) ] |}.

(** ** Query layer: [queries.ts] *)

Definition newChatSDKError {A} (code msg : string) : M A :=
  throw (EChatSDK {| kind := code; message := msg |}).

(** The template literal [`${n}`] of an integral number. *)
Definition numberToString (n : Z) : string :=
  NilZero.string_of_int (Z.to_int n).

Definition getUser (email : string) : M (list (Doc IUser)) :=
  try_catch
    (exec (find User (fun u => user_email (fields u) =? email)))
    (fun error => newChatSDKError "bad_request:database" "Failed to get user by email").

Definition createUser (email password : string) : M (Doc IUser) :=
  salt <- draw ;;
  hashedPassword <- asks (fun e => generateHashedPassword e password salt) ;;
  try_catch
    (create User {| in_id := None; in_email := Some email;
                    in_password := Some hashedPassword |})
    (fun error => newChatSDKError "bad_request:database" "Failed to create user").

Definition createGuestUser : M (list Js.Obj) :=
  n <- draw ;;
  id <- asks (fun e => generateUUID e n) ;;
  now <- Date_now ;;
  let email := ("guest-" ++ numberToString now)%string in
  n' <- draw ;;
  salt <- draw ;;
  password <- asks (fun e => generateHashedPassword e (generateUUID e n') salt) ;;
  try_catch
    (newUser <- create User {| in_id := Some id; in_email := Some email;
                               in_password := Some password |} ;;
     ret [ [ ("id", user_id (fields newUser));
             ("email", user_email (fields newUser)) ] ])
    (fun error => newChatSDKError "bad_request:database" "Failed to create guest user").

Definition saveChat (id userId title : string) (visibility : VisibilityType)
    : M (Doc IChat) :=
  try_catch
    (now <- Date_now ;;
     create Chat {| chat_id := id; chat_createdAt := now; chat_userId := userId;
                    chat_title := title; chat_visibility := visibility |})
    (fun error => newChatSDKError "bad_request:database" "Failed to save chat").

(** The result is [{ id }] or [undefined]. *)
Definition deleteChatById (id : string) : M (option string) :=
  try_catch
    (deleteMany Vote (fun v => vote_chatId (fields v) =? id) ;;;
     deleteMany Message (fun m => msg_chatId (fields m) =? id) ;;;
     deleteMany Stream (fun s => stream_chatId (fields s) =? id) ;;;
     deletedCount <- deleteOne Chat (fun c => chat_id (fields c) =? id) ;;
     ret (if (0 <? deletedCount)%nat then Some id else None))
    (fun error => newChatSDKError "bad_request:database" "Failed to delete chat by id").

Record ChatPage := {
  page_chats : list (Doc IChat);
  hasMore : bool }.

Definition createdAtDesc (a b : Doc IChat) : bool :=
  (chat_createdAt (fields b) <=? chat_createdAt (fields a))%Z.

Definition getChatsByUserId (id : string) (limit_ : Z)
    (startingAfter endingBefore : option string) : M ChatPage :=
  try_catch
    (let extendedLimit := (limit_ + 1)%Z in
     let query := find Chat (fun c => chat_userId (fields c) =? id) in
     query <-
       (if Js.truthy startingAfter then
          selectedChat <-
            execOne (find Chat (fun c => chat_id (fields c) =? Js.str startingAfter)) ;;
          match selectedChat with
          | None =>
              newChatSDKError "not_found:database"
                ("Chat with id " ++ Js.str startingAfter ++ " not found")%string
          | Some selectedChat =>
              ret (where_ query (fun c =>
                     (chat_createdAt (fields selectedChat) <? chat_createdAt (fields c))%Z))
          end
        else if Js.truthy endingBefore then
          selectedChat <-
            execOne (find Chat (fun c => chat_id (fields c) =? Js.str endingBefore)) ;;
          match selectedChat with
          | None =>
              newChatSDKError "not_found:database"
                ("Chat with id " ++ Js.str endingBefore ++ " not found")%string
          | Some selectedChat =>
              ret (where_ query (fun c =>
                     (chat_createdAt (fields c) <? chat_createdAt (fields selectedChat))%Z))
          end
        else ret query) ;;
     filteredChats <- exec (limit (sort query createdAtDesc) extendedLimit) ;;
     let hasMore := (limit_ <? Z.of_nat (length filteredChats))%Z in
     ret {| page_chats := if hasMore then Js.slice0 limit_ filteredChats else filteredChats;
            hasMore := hasMore |})
    (fun error => newChatSDKError "bad_request:database" "Failed to get chats by user id").

Definition getChatById (id : string) : M (option (Doc IChat)) :=
  try_catch
    (execOne (find Chat (fun c => chat_id (fields c) =? id)))
    (fun error => newChatSDKError "bad_request:database" "Failed to get chat by id").

Definition saveMessages (messages_ : list IDBMessage) : M (list (Doc IDBMessage)) :=
  try_catch
    (insertMany Message messages_)
    (fun error => newChatSDKError "bad_request:database" "Failed to save messages").

Definition getMessagesByChatId (id : string) : M (list (Doc IDBMessage)) :=
  try_catch
    (exec (sort (find Message (fun m => msg_chatId (fields m) =? id))
                (fun a b => (msg_createdAt (fields a) <=? msg_createdAt (fields b))%Z)))
    (fun error => newChatSDKError "bad_request:database" "Failed to get messages by chat id").

Inductive VoteType := up | down.

Definition isUp (type : VoteType) : bool :=
  match type with
  | up => true
  | down => false
  end.

(** What [voteMessage] resolves to: the result of the update (its
    [matchedCount]) or the created document. *)
Inductive VoteOutcome :=
| Updated (matchedCount : nat)
| Created (v : Doc IVote).

Definition voteMessage (chatId messageId : string) (type : VoteType) : M VoteOutcome :=
  try_catch
    (existingVote <-
       execOne (find Vote (fun v => vote_messageId (fields v) =? messageId)) ;;
     match existingVote with
     | Some _ =>
         n <- updateOne Vote
                (fun v => (vote_messageId (fields v) =? messageId)
                          && (vote_chatId (fields v) =? chatId))
                (fun v => {| vote_chatId := vote_chatId v;
                             vote_messageId := vote_messageId v;
                             vote_isUpvoted := isUp type |}) ;;
         ret (Updated n)
     | None =>
         v <- create Vote {| vote_chatId := chatId; vote_messageId := messageId;
                             vote_isUpvoted := isUp type |} ;;
         ret (Created v)
     end)
    (fun error => newChatSDKError "bad_request:database" "Failed to vote message").

Definition getVotesByChatId (id : string) : M (list (Doc IVote)) :=
  try_catch
    (exec (find Vote (fun v => vote_chatId (fields v) =? id)))
    (fun error => newChatSDKError "bad_request:database" "Failed to get votes by chat id").

Definition saveDocument (id title : string) (kind_ : ArtifactKind)
    (content userId : string) : M (Doc IDocument) :=
  try_catch
    (now <- Date_now ;;
     create Document {| doc_id := id; doc_title := title; doc_kind := kind_;
                        doc_content := Some content; doc_userId := userId;
                        doc_createdAt := now |})
    (fun error => newChatSDKError "bad_request:database" "Failed to save document").

Definition getDocumentsById (id : string) : M (list (Doc IDocument)) :=
  try_catch
    (documents_ <-
       exec (sort (find Document (fun d => doc_id (fields d) =? id))
                  (fun a b => (doc_createdAt (fields a) <=? doc_createdAt (fields b))%Z)) ;;
     ret documents_)
    (fun error => newChatSDKError "bad_request:database" "Failed to get documents by id").

Definition getDocumentById (id : string) : M (option (Doc IDocument)) :=
  try_catch
    (selectedDocument <-
       execOne (sort (find Document (fun d => doc_id (fields d) =? id))
                     (fun a b => (doc_createdAt (fields b) <=? doc_createdAt (fields a))%Z)) ;;
     ret selectedDocument)
    (fun error => newChatSDKError "bad_request:database" "Failed to get document by id").

Definition deleteDocumentsByIdAfterTimestamp (id : string) (timestamp : Date)
    : M (option string) :=
  try_catch
    (deleteMany Suggestion
       (fun s => (sug_documentId (fields s) =? id)
                 && (timestamp <? sug_documentCreatedAt (fields s))%Z) ;;;
     deletedCount <-
       deleteMany Document
         (fun d => (doc_id (fields d) =? id)
                   && (timestamp <? doc_createdAt (fields d))%Z) ;;
     ret (if (0 <? deletedCount)%nat then Some id else None))
    (fun error =>
       newChatSDKError "bad_request:database"
         "Failed to delete documents by id after timestamp").

Definition saveSuggestions (suggestions_ : list ISuggestion) : M (list (Doc ISuggestion)) :=
  try_catch
    (insertMany Suggestion suggestions_)
    (fun error => newChatSDKError "bad_request:database" "Failed to save suggestions").

Definition getSuggestionsByDocumentId (documentId : string) : M (list (Doc ISuggestion)) :=
  try_catch
    (exec (find Suggestion (fun s => sug_documentId (fields s) =? documentId)))
    (fun error =>
       newChatSDKError "bad_request:database" "Failed to get suggestions by document id").

Definition getMessageById (id : string) : M (option (Doc IDBMessage)) :=
  try_catch
    (execOne (find Message (fun m => msg_id (fields m) =? id)))
    (fun error => newChatSDKError "bad_request:database" "Failed to get message by id").

(** [{ $in: values }] on a [String] path, the values already cast. *)
Definition isIn (v : string) (values : list string) : bool :=
  existsb (String.eqb v) values.

(** The result is that of the last [deleteMany] (its [deletedCount]), or
    [undefined] when no message matched. An ObjectId met where a [String]
    path is queried is cast to its hexadecimal string, which is how
    [ObjectId] is represented here. *)
Definition deleteMessagesByChatIdAfterTimestamp (chatId : string) (timestamp : Date)
    : M (option nat) :=
  try_catch
    (messagesToDelete <-
       exec (find Message
               (fun m => (msg_chatId (fields m) =? chatId)
                         && (timestamp <=? msg_createdAt (fields m))%Z)) ;;
     let messageIds := map (fun m => _id m) messagesToDelete in
     if (0 <? length messageIds)%nat then
       deleteMany Vote
         (fun v => (vote_chatId (fields v) =? chatId)
                   && isIn (vote_messageId (fields v)) messageIds) ;;;
       n <- deleteMany Message
              (fun m => (msg_chatId (fields m) =? chatId) && isIn (_id m) messageIds) ;;
       ret (Some n)
     else ret None)
    (fun error =>
       newChatSDKError "bad_request:database"
         "Failed to delete messages by chat id after timestamp").

Definition updateChatVisiblityById (chatId : string) (visibility : VisibilityType)
    : M nat :=
  try_catch
    (updateOne Chat (fun c => chat_id (fields c) =? chatId)
       (fun c => {| chat_id := chat_id c; chat_createdAt := chat_createdAt c;
                    chat_title := chat_title c; chat_userId := chat_userId c;
                    chat_visibility := visibility |}))
    (fun error =>
       newChatSDKError "bad_request:database" "Failed to update chat visibility by id").

(** [differenceInHours] is taken integral. The [$in] operand is the array
    of the user's chat documents projected on [_id]; [chatId] being a
    [String] path, Mongoose casts each of them with [docToString]. It is
    awaited while the filter is built, before [countDocuments] is called;
    the filter is cast when the count is executed, and an Invalid Date
    under [$gte] fails the cast. *)
Definition getMessageCountByUserId (id : string) (differenceInHours : Z) : M nat :=
  try_catch
    (now <- Date_now ;;
     let twentyFourHoursAgo := (now - differenceInHours * 60 * 60 * 1000)%Z in
     selected <- exec (find Chat (fun c => chat_userId (fields c) =? id)) ;;
     toString <- asks docToString ;;
     let operand := map (fun c => toString (_id c)) selected in
     count <- (if Js.timeValue twentyFourHoursAgo then
                 countDocuments Message
                   (fun m => (msg_role (fields m) =? "user")
                             && (twentyFourHoursAgo <=? msg_createdAt (fields m))%Z
                             && isIn (msg_chatId (fields m)) operand)
               else refuse (CastError "createdAt")) ;;
     ret count)
    (fun error =>
       newChatSDKError "bad_request:database" "Failed to get message count by user id").

Definition createStreamId (streamId chatId : string) : M unit :=
  try_catch
    (now <- Date_now ;;
     create Stream {| stream_id := streamId; stream_chatId := chatId;
                      stream_createdAt := now |} ;;;
     ret tt)
    (fun error => newChatSDKError "bad_request:database" "Failed to create stream id").

Definition getStreamIdsByChatId (chatId : string) : M (list string) :=
  try_catch
    (streamIds <-
       exec (sort (find Stream (fun s => stream_chatId (fields s) =? chatId))
                  (fun a b => (stream_createdAt (fields a) <=? stream_createdAt (fields b))%Z)) ;;
     ret (map (fun s => stream_id (fields s)) streamIds))
    (fun error =>
       newChatSDKError "bad_request:database" "Failed to get stream ids by chat id").

(** ** The API surface

    One constructor per exported function of [queries.ts], indexed by what
    the function resolves to. *)

Inductive Call : Type -> Type :=
| GetUser (email : string) : Call (list (Doc IUser))
| CreateUser (email password : string) : Call (Doc IUser)
| CreateGuestUser : Call (list Js.Obj)
| SaveChat (id userId title : string) (visibility : VisibilityType) : Call (Doc IChat)
| DeleteChatById (id : string) : Call (option string)
| GetChatsByUserId (id : string) (limit_ : Z) (startingAfter endingBefore : option string)
    : Call ChatPage
| GetChatById (id : string) : Call (option (Doc IChat))
| SaveMessages (messages_ : list IDBMessage) : Call (list (Doc IDBMessage))
| GetMessagesByChatId (id : string) : Call (list (Doc IDBMessage))
| VoteMessage (chatId messageId : string) (type : VoteType) : Call VoteOutcome
| GetVotesByChatId (id : string) : Call (list (Doc IVote))
| SaveDocument (id title : string) (kind_ : ArtifactKind) (content userId : string)
    : Call (Doc IDocument)
| GetDocumentsById (id : string) : Call (list (Doc IDocument))
| GetDocumentById (id : string) : Call (option (Doc IDocument))
| DeleteDocumentsByIdAfterTimestamp (id : string) (timestamp : Date) : Call (option string)
| SaveSuggestions (suggestions_ : list ISuggestion) : Call (list (Doc ISuggestion))
| GetSuggestionsByDocumentId (documentId : string) : Call (list (Doc ISuggestion))
| GetMessageById (id : string) : Call (option (Doc IDBMessage))
| DeleteMessagesByChatIdAfterTimestamp (chatId : string) (timestamp : Date)
    : Call (option nat)
| UpdateChatVisiblityById (chatId : string) (visibility : VisibilityType) : Call nat
| GetMessageCountByUserId (id : string) (differenceInHours : Z) : Call nat
| CreateStreamId (streamId chatId : string) : Call unit
| GetStreamIdsByChatId (chatId : string) : Call (list string).

Definition run {A} (c : Call A) : M A :=
  match c with
  | GetUser email => getUser email
  | CreateUser email password => createUser email password
  | CreateGuestUser => createGuestUser
  | SaveChat id userId title visibility => saveChat id userId title visibility
  | DeleteChatById id => deleteChatById id
  | GetChatsByUserId id limit_ startingAfter endingBefore =>
      getChatsByUserId id limit_ startingAfter endingBefore
  | GetChatById id => getChatById id
  | SaveMessages messages_ => saveMessages messages_
  | GetMessagesByChatId id => getMessagesByChatId id
  | VoteMessage chatId messageId type => voteMessage chatId messageId type
  | GetVotesByChatId id => getVotesByChatId id
  | SaveDocument id title kind_ content userId => saveDocument id title kind_ content userId
  | GetDocumentsById id => getDocumentsById id
  | GetDocumentById id => getDocumentById id
  | DeleteDocumentsByIdAfterTimestamp id timestamp =>
      deleteDocumentsByIdAfterTimestamp id timestamp
  | SaveSuggestions suggestions_ => saveSuggestions suggestions_
  | GetSuggestionsByDocumentId documentId => getSuggestionsByDocumentId documentId
  | GetMessageById id => getMessageById id
  | DeleteMessagesByChatIdAfterTimestamp chatId timestamp =>
      deleteMessagesByChatIdAfterTimestamp chatId timestamp
  | UpdateChatVisiblityById chatId visibility => updateChatVisiblityById chatId visibility
  | GetMessageCountByUserId id differenceInHours =>
      getMessageCountByUserId id differenceInHours
  | CreateStreamId streamId chatId => createStreamId streamId chatId
  | GetStreamIdsByChatId chatId => getStreamIdsByChatId chatId
  end.

(** ** Vocabulary of the properties *)

(** The error kinds the query layer may surface. *)
Definition databaseKind (k : string) : Prop :=
  k = "bad_request:database" \/ k = "not_found:database".

(** An exception that may cross a function boundary. *)
Definition tagged (x : Exn) : Prop :=
  exists e, x = EChatSDK e /\ databaseKind (kind e) /\ message e <> "".

(** The schema's unique index on [Chat.id]. *)
Definition chatIdsUnique (d : Database) : Prop :=
  NoDup (map (fun c => chat_id (fields c)) (chats d)).

(** The schema's unique index on [Vote.(chatId, messageId)]. *)
Definition voteKeysUnique (d : Database) : Prop :=
  NoDup (map (fun v => (vote_chatId (fields v), vote_messageId (fields v))) (votes d)).

(** The cursor in force: [startingAfter] when truthy, else [endingBefore]
    when truthy. *)
Definition activeCursor (startingAfter endingBefore : option string) : option string :=
  if Js.truthy startingAfter then startingAfter
  else if Js.truthy endingBefore then endingBefore
  else None.

Definition lookupChat (id : string) (d : Database) : option (Doc IChat) :=
  List.find (fun c => chat_id (fields c) =? id) (chats d).

(** The cursor filter: strictly newer than the [startingAfter] chat, or
    strictly older than the [endingBefore] chat. *)
Definition cursorFilter (startingAfter endingBefore : option string) (d : Database)
    (c : Doc IChat) : bool :=
  if Js.truthy startingAfter then
    match lookupChat (Js.str startingAfter) d with
    | Some s => (chat_createdAt (fields s) <? chat_createdAt (fields c))%Z
    | None => true
    end
  else if Js.truthy endingBefore then
    match lookupChat (Js.str endingBefore) d with
    | Some s => (chat_createdAt (fields c) <? chat_createdAt (fields s))%Z
    | None => true
    end
  else true.

(** The user's chats that pass the cursor filter. *)
Definition matchingChats (id : string) (startingAfter endingBefore : option string)
    (d : Database) : list (Doc IChat) :=
  filter (fun c => (chat_userId (fields c) =? id) && cursorFilter startingAfter endingBefore d c)
         (chats d).

(** The cursor names a chat that does not exist. *)
Definition cursorMissing (startingAfter endingBefore : option string) (d : Database) : Prop :=
  exists c, activeCursor startingAfter endingBefore = Some c /\ lookupChat c d = None.

(** The count the rate limiter is after: messages of role ["user"], created
    at or after [since], in a chat owned by the user. *)
Definition ownedBy (id : string) (d : Database) (m : Doc IDBMessage) : bool :=
  existsb (fun c => (chat_userId (fields c) =? id)
                    && (chat_id (fields c) =? msg_chatId (fields m)))
          (chats d).

Definition userMessagesSince (id : string) (since : Z) (d : Database) : nat :=
  length (filter (fun m => (msg_role (fields m) =? "user")
                           && (since <=? msg_createdAt (fields m))%Z
                           && ownedBy id d m)
                 (messages d)).

Definition votesFor (chatId messageId : string) (d : Database) : list (Doc IVote) :=
  filter (fun v => (vote_chatId (fields v) =? chatId)
                   && (vote_messageId (fields v) =? messageId))
         (votes d).

(** The page computed from the [limit + 1] documents the store answers with. *)
Definition pageOf (limit_ : Z) (filteredChats : list (Doc IChat)) : ChatPage :=
  let more := (limit_ <? Z.of_nat (length filteredChats))%Z in
  {| page_chats := if more then Js.slice0 limit_ filteredChats else filteredChats;
     hasMore := more |}.

(** [m] raises whenever one of the round trips it makes fails: [used] is
    the part of the failure schedule it consumed. *)
Definition propagates {A} (m : M A) : Prop :=
  forall w, exists used,
    faults w = used ++ faults (snd (m w)) /\
    (In true used -> exists x, fst (m w) = Throw x).

(** [m] raises whenever one of the store operations it runs fails, be the
    request lost or refused by Mongoose or by the store: [new] is what it
    added to the record of failures. *)
Definition surfaces {A} (m : M A) : Prop :=
  forall w, exists new,
    failures (snd (m w)) = failures w ++ new /\
    (new <> [] -> exists x, fst (m w) = Throw x).

(** Whatever [m] raises may cross a function boundary. *)
Definition raisesTagged {A} (m : M A) : Prop :=
  forall w x, fst (m w) = Throw x -> tagged x.

(** The unique index of model [m] on [key]: no two documents share it. *)
Definition uniqueOn {I A K} (m : Model I A) (key : A -> K) (d : Database) : Prop :=
  NoDup (map (fun x => key (fields x)) (coll m d)).

(** Every unique index the schemas declare. *)
Definition uniqueIndexes (d : Database) : Prop :=
  uniqueOn User user_id d /\
  uniqueOn User user_email d /\
  uniqueOn Chat chat_id d /\
  uniqueOn Message msg_id d /\
  uniqueOn Vote (fun v => (vote_chatId v, vote_messageId v)) d /\
  uniqueOn Document doc_id d /\
  uniqueOn Document (fun x => (doc_id x, doc_createdAt x)) d /\
  uniqueOn Suggestion sug_id d /\
  uniqueOn Stream stream_id d.

(** [m] keeps [P] true of the store, whether it returns or raises. *)
Definition preserves {A} (P : Database -> Prop) (m : M A) : Prop :=
  forall w, P (db w) -> P (db (snd (m w))).

(** Writing the collection of [m'] leaves that of [m] alone. *)
Definition apart {I A I' A'} (m : Model I A) (m' : Model I' A') : Prop :=
  forall c d, coll m (setColl m' c d) = coll m d.

(** Writing the collection of [m] and reading it back. *)
Definition readsBack {I A} (m : Model I A) : Prop :=
  forall c d, coll m (setColl m c d) = c.

(** [key] is the key of one of the unique indexes declared on [m]. *)
Definition declared {I A K} (m : Model I A) (key : A -> K) : Prop :=
  exists name same,
    In (name, same) (indexes m) /\ forall a b, key a = key b -> same a b = true.

(** The states the API can bring an empty store to. *)
Inductive reachable : Database -> Prop :=
| reachable_empty : reachable emptyDb
| reachable_call {A} (c : Call A) (w : World) :
    reachable (db w) -> reachable (db (snd (run c w))).

(** Every vote on the message is recorded under the chat. *)
Definition votedUnder (chatId messageId : string) (d : Database) : Prop :=
  forall v, In v (votes d) ->
            vote_messageId (fields v) = messageId -> vote_chatId (fields v) = chatId.

(** The functions that only read: the [get...] functions. *)
Definition isQuery {A} (c : Call A) : bool :=
  match c with
  | GetUser _ | GetChatsByUserId _ _ _ _ | GetChatById _ | GetMessagesByChatId _
  | GetVotesByChatId _ | GetDocumentsById _ | GetDocumentById _
  | GetSuggestionsByDocumentId _ | GetMessageById _ | GetMessageCountByUserId _ _
  | GetStreamIdsByChatId _ => true
  | _ => false
  end.

(** A message the [Message] schema does not accept: a required string is
    empty, or a required payload is missing. *)
Definition invalidMessage (m : IDBMessage) : Prop :=
  msg_id m = "" \/ msg_chatId m = "" \/ msg_role m = "" \/
  msg_parts m = None \/ msg_attachments m = None.

(** Ascending and descending order of creation. *)
Definition msgOlder (a b : Doc IDBMessage) : Prop :=
  (msg_createdAt (fields a) <= msg_createdAt (fields b))%Z.

(** The messages of a chat created at or after a time: what
    [deleteMessagesByChatIdAfterTimestamp] selects. *)
Definition messagesFrom (chatId : string) (timestamp : Date) (d : Database)
    : list (Doc IDBMessage) :=
  filter (fun m => (msg_chatId (fields m) =? chatId)
                   && (timestamp <=? msg_createdAt (fields m))%Z)
         (messages d).

(** Newest first, by a time-valued key. *)
Definition newerFirst {A} (key : A -> Z) (a b : A) : Prop := (key b <= key a)%Z.

(** When a chat was created. *)
Definition createdAtOf (c : Doc IChat) : Z := chat_createdAt (fields c).

(** Every suggestion points at a stored version of its document. *)
Definition suggestionsAnchored (d : Database) : Prop :=
  forall s, In s (suggestions d) ->
    exists x, In x (documents d) /\
              doc_id (fields x) = sug_documentId (fields s) /\
              doc_createdAt (fields x) = sug_documentCreatedAt (fields s).

(** Every vote, message and stream names a stored chat. *)
Definition chatsReferenced (d : Database) : Prop :=
  (forall v, In v (votes d) ->
     exists c, In c (chats d) /\ chat_id (fields c) = vote_chatId (fields v)) /\
  (forall m, In m (messages d) ->
     exists c, In c (chats d) /\ chat_id (fields c) = msg_chatId (fields m)) /\
  (forall s, In s (streams d) ->
     exists c, In c (chats d) /\ chat_id (fields c) = stream_chatId (fields s)).

(** ** Sample environment and states *)

(** An environment to run the functions in. Its [docToString] prints a
    document projected on [_id] the way Node's [inspect] does. *)
Definition sampleEnv : Env :=
  {| generateHashedPassword := fun password salt =>
       ("$2a$10$" ++ numberToString (Z.of_nat salt) ++ "$" ++ password)%string;
     generateUUID := fun n => ("uuid-" ++ numberToString (Z.of_nat n))%string;
     newObjectId := fun n => ("65f1c0de0000000000000" ++ numberToString (Z.of_nat n))%string;
     docToString := fun o => ("{ _id: new ObjectId('" ++ o ++ "') }")%string |}.

Definition world (d : Database) (fs : list bool) : World :=
  {| env := sampleEnv; db := d; clock := 1700000000000%Z; draws := 0; faults := fs;
     failures := [] |}.

Definition chatOf (oid id : string) (t : Z) (userId : string) : Doc IChat :=
  {| _id := oid;
     fields := {| chat_id := id; chat_createdAt := t; chat_title := "untitled";
                  chat_userId := userId; chat_visibility := private |} |}.

Definition messageOf (oid id chatId role : string) (t : Z) : Doc IDBMessage :=
  {| _id := oid;
     fields := {| msg_id := id; msg_chatId := chatId; msg_role := role;
                  msg_parts := Some "[]"; msg_attachments := Some "[]";
                  msg_createdAt := t |} |}.

Definition voteOf (oid chatId messageId : string) (b : bool) : Doc IVote :=
  {| _id := oid;
     fields := {| vote_chatId := chatId; vote_messageId := messageId;
                  vote_isUpvoted := b |} |}.

(** Three chats of user ["u1"], one of user ["u2"]; two messages, a vote
    and a stream in chat ["c1"]. *)
Definition sampleDb : Database :=
  {| users := [ {| _id := "a0"; fields := {| user_id := "u1"; user_email := "ann@example.org";
                                             user_password := None |} |} ];
     chats := [ chatOf "b1" "c1" 100 "u1"; chatOf "b2" "c2" 200 "u1";
                chatOf "b3" "c3" 300 "u1"; chatOf "b4" "c4" 400 "u2" ];
     messages := [ messageOf "d1" "m1" "c1" "user" 1699999990000;
                   messageOf "d2" "m2" "c1" "assistant" 1699999995000 ];
     votes := [ voteOf "e1" "c1" "m2" true ];
     documents :=
       [ {| _id := "f1";
            fields := {| doc_id := "doc1"; doc_createdAt := 500%Z; doc_title := "notes";
                         doc_content := Some "draft"; doc_kind := text;
                         doc_userId := "u1" |} |} ];
     suggestions :=
       [ {| _id := "g1";
            fields := {| sug_id := "s1"; sug_documentId := "doc1";
                         sug_documentCreatedAt := 500%Z; sug_originalText := "teh";
                         sug_suggestedText := "the"; sug_description := None;
                         sug_isResolved := false; sug_userId := "u1";
                         sug_createdAt := 510%Z |} |} ];
     streams := [ {| _id := "h1";
                     fields := {| stream_id := "st1"; stream_chatId := "c1";
                                  stream_createdAt := 120%Z |} |} ] |}.

(** One chat of user ["u1"] holding one recent message of role ["user"]. *)
Definition countDb : Database :=
  {| users := []; chats := [ chatOf "b1" "c1" 100 "u1" ];
     messages := [ messageOf "d1" "m1" "c1" "user" 1699999990000 ];
     votes := []; documents := []; suggestions := []; streams := [] |}.

(** * Properties *)

(** ** Computations: inversion and step lemmas *)

Lemma bind_Ok {A B} (m : M A) (k : A -> M B) w b w' :
  bind m k w = (Ok b, w') ->
  exists a w1, m w = (Ok a, w1) /\ k a w1 = (Ok b, w').
Proof.
  unfold bind. destruct (m w) as [[a|e] w1]; intros H.
  - exists a, w1. split; [reflexivity | exact H].
  - discriminate H.
Qed.

Lemma try_catch_Ok {A} (body : M A) code msg w a w' :
  try_catch body (fun _ => newChatSDKError code msg) w = (Ok a, w') ->
  body w = (Ok a, w').
Proof.
  unfold try_catch. destruct (body w) as [[x|e] w1]; intros H.
  - exact H.
  - discriminate H.
Qed.

Lemma try_catch_Throw {A} (body : M A) code msg w x w' :
  try_catch body (fun _ => newChatSDKError code msg) w = (Throw x, w') ->
  x = EChatSDK {| kind := code; message := msg |} /\
  exists e, body w = (Throw e, w').
Proof.
  unfold try_catch. destruct (body w) as [[a|e] w1]; intros H.
  - discriminate H.
  - unfold newChatSDKError, throw in H. inversion H; subst. eauto.
Qed.

Lemma roundTrip_Ok {A} (op : Database -> Result A * Database) w a w' :
  roundTrip op w = (Ok a, w') ->
  op (db w) = (Ok a, db w') /\ env w' = env w /\ clock w' = clock w /\
  draws w' = draws w /\ faults w' = tl (faults w) /\ hd false (faults w) = false.
Proof.
  unfold roundTrip.
  destruct (faults w) as [|[|] fs] eqn:F;
    try discriminate;
    destruct (op (db w)) as [r d] eqn:O; intros H; inversion H; subst;
    simpl; auto 10.
Qed.

Lemma roundTrip_quiet {A} (op : Database -> Result A * Database) w :
  hd false (faults w) = false ->
  roundTrip op w =
  (fst (op (db w)),
   noteAnswer (fst (op (db w))) (setDb (snd (op (db w))) (setFaults (tl (faults w)) w))).
Proof.
  unfold roundTrip. destruct (faults w) as [|[|] fs]; simpl; intros H;
    try discriminate; destruct (op (db w)); reflexivity.
Qed.

Lemma roundTrip_lost {A} (op : Database -> Result A * Database) w :
  hd false (faults w) = true ->
  roundTrip op w =
  (Throw (EStore ConnectionError), noteFailure ConnectionError (setFaults (tl (faults w)) w)).
Proof.
  unfold roundTrip. destruct (faults w) as [|[|] fs]; simpl; intros H;
    try discriminate; reflexivity.
Qed.

(** A schedule on which no round trip fails. *)
Lemma quiet_hd (fs : list bool) : forallb negb fs = true -> hd false fs = false.
Proof. destruct fs as [|[|] fs]; simpl; auto; discriminate. Qed.

Lemma quiet_tl (fs : list bool) : forallb negb fs = true -> forallb negb (tl fs) = true.
Proof. destruct fs as [|[|] fs]; simpl; auto; discriminate. Qed.

(** On such a schedule a round trip yields what the store answers. *)
Lemma roundTrip_quiet_Ok {A} (f : Database -> A) (g : Database -> Database) w :
  forallb negb (faults w) = true ->
  exists w', roundTrip (fun d => (Ok (f d), g d)) w = (Ok (f (db w)), w') /\
             db w' = g (db w) /\ forallb negb (faults w') = true.
Proof.
  intros Q. rewrite (roundTrip_quiet _ _ (quiet_hd _ Q)). simpl.
  eexists. split; [reflexivity|]. split; [reflexivity|]. simpl. now apply quiet_tl.
Qed.

Lemma ret_Ok {A} (a b : A) w w' : ret a w = (Ok b, w') -> a = b /\ w = w'.
Proof. unfold ret. intros H; inversion H; auto. Qed.

Lemma deleteMany_Ok {I A} (m : Model I A) p w n w' :
  deleteMany m p w = (Ok n, w') ->
  db w' = setColl m (filter (fun x => negb (p x)) (coll m (db w))) (db w) /\
  n = length (filter p (coll m (db w))).
Proof.
  unfold deleteMany. intros H. apply roundTrip_Ok in H.
  destruct H as (H & _). inversion H. auto.
Qed.

Lemma deleteOne_Ok {I A} (m : Model I A) p w n w' :
  deleteOne m p w = (Ok n, w') ->
  db w' = setColl m (removeFirst p (coll m (db w))) (db w) /\
  n = (if existsb p (coll m (db w)) then 1 else 0).
Proof.
  unfold deleteOne. intros H. apply roundTrip_Ok in H.
  destruct H as (H & _). inversion H. auto.
Qed.

(** Peels one layer off a hypothesis saying that a computation returned. *)
Ltac peel H :=
  lazymatch type of H with
  | try_catch _ _ _ = (Ok _, _) => apply try_catch_Ok in H
  | bind _ _ _ = (Ok _, _) =>
      let a := fresh "a" in
      let w1 := fresh "w" in
      let H1 := fresh "Hstep" in
      apply bind_Ok in H; destruct H as (a & w1 & H1 & H)
  | ret _ _ = (Ok _, _) =>
      let E := fresh "E" in
      apply ret_Ok in H; destruct H as (H & E)
  end.

(** ** Lists: what [filter] and [removeFirst] leave behind *)

Section Collections.
Context {A : Type}.
Implicit Types (p : A -> bool) (l : list A).

Lemma filter_negb_none p l x :
  In x (filter (fun y => negb (p y)) l) -> p x = false.
Proof.
  intros H. apply filter_In in H. destruct H as (_ & H).
  now apply negb_true_iff in H.
Qed.

Lemma removeFirst_subset p l x : In x (removeFirst p l) -> In x l.
Proof.
  induction l as [|y l IH]; simpl; [tauto|].
  destruct (p y); simpl; intuition.
Qed.

(** When the key of [p] is unique in [l], removing the first match removes
    every match. *)
Lemma removeFirst_none {K} (key : A -> K) p l x :
  (forall y z, p y = true -> p z = true -> key y = key z) ->
  NoDup (map key l) ->
  In x (removeFirst p l) -> p x = false.
Proof.
  intros Hkey. induction l as [|y l IH]; simpl; [tauto|].
  intros Hnd Hin. inversion Hnd as [|? ? Hnotin Hnd']; subst.
  destruct (p y) eqn:Py.
  - destruct (p x) eqn:Px; [|reflexivity].
    exfalso. apply Hnotin. rewrite (Hkey y x Py Px). now apply in_map.
  - destruct Hin as [->|Hin]; [exact Py | now apply IH].
Qed.

End Collections.

(** ** Cascading deletes *)

Lemma deleteMany_quiet {I A} (m : Model I A) p w :
  forallb negb (faults w) = true ->
  exists n w', deleteMany m p w = (Ok n, w') /\ forallb negb (faults w') = true.
Proof.
  intros Q. unfold deleteMany.
  destruct (roundTrip_quiet_Ok
              (fun d => length (filter p (coll m d)))
              (fun d => setColl m (filter (fun x => negb (p x)) (coll m d)) d) w Q)
    as (w' & E & _ & Q').
  eauto.
Qed.

Lemma deleteOne_quiet {I A} (m : Model I A) p w :
  forallb negb (faults w) = true ->
  exists n w', deleteOne m p w = (Ok n, w') /\ forallb negb (faults w') = true.
Proof.
  intros Q. unfold deleteOne.
  destruct (roundTrip_quiet_Ok
              (fun d => if existsb p (coll m d) then 1 else 0)
              (fun d => setColl m (removeFirst p (coll m d)) d) w Q)
    as (w' & E & _ & Q').
  eauto.
Qed.

(** [deleteChatById] returns when no round trip fails. *)
Lemma deleteChatById_returns (id : string) (w : World) :
  forallb negb (faults w) = true ->
  exists r w', deleteChatById id w = (Ok r, w').
Proof.
  intros Q. unfold deleteChatById, try_catch, bind.
  destruct (deleteMany_quiet Vote (fun v => vote_chatId (fields v) =? id) w Q)
    as (n1 & w1 & -> & Q1).
  destruct (deleteMany_quiet Message (fun m => msg_chatId (fields m) =? id) w1 Q1)
    as (n2 & w2 & -> & Q2).
  destruct (deleteMany_quiet Stream (fun s => stream_chatId (fields s) =? id) w2 Q2)
    as (n3 & w3 & -> & Q3).
  destruct (deleteOne_quiet Chat (fun c => chat_id (fields c) =? id) w3 Q3)
    as (n4 & w4 & -> & Q4).
  unfold ret. eauto.
Qed.

(** C4. When [deleteChatById id] returns, the store holds no vote, message
    or stream whose [chatId] is [id], and no chat whose [id] is [id]. The
    state it starts from satisfies the schema's unique index on [Chat.id]. *)
Theorem deleteChatById_cascade (id : string) (w : World) (r : option string) (w' : World) :
  chatIdsUnique (db w) ->
  deleteChatById id w = (Ok r, w') ->
  (forall v, In v (votes (db w')) -> vote_chatId (fields v) <> id) /\
  (forall m, In m (messages (db w')) -> msg_chatId (fields m) <> id) /\
  (forall s, In s (streams (db w')) -> stream_chatId (fields s) <> id) /\
  (forall c, In c (chats (db w')) -> chat_id (fields c) <> id).
Proof.
  intros Huniq H. unfold deleteChatById in H.
  peel H. peel H. peel H. peel H. peel H. peel H.
  apply deleteMany_Ok in Hstep. destruct Hstep as (D1 & _).
  apply deleteMany_Ok in Hstep0. destruct Hstep0 as (D2 & _).
  apply deleteMany_Ok in Hstep1. destruct Hstep1 as (D3 & _).
  apply deleteOne_Ok in Hstep2. destruct Hstep2 as (D4 & _).
  subst w'. rewrite D4, D3, D2, D1. simpl.
  repeat split.
  - intros v Hin Heq. apply filter_negb_none in Hin.
    apply String.eqb_neq in Hin. contradiction.
  - intros m Hin Heq. apply filter_negb_none in Hin.
    apply String.eqb_neq in Hin. contradiction.
  - intros s Hin Heq. apply filter_negb_none in Hin.
    apply String.eqb_neq in Hin. contradiction.
  - intros c Hin Heq.
    apply (removeFirst_none (fun c => chat_id (fields c))) in Hin.
    + apply String.eqb_neq in Hin. contradiction.
    + intros y z Hy Hz. apply String.eqb_eq in Hy, Hz. congruence.
    + exact Huniq.
Qed.

Lemma deleteChatById_cascade_witness :
  let out := deleteChatById "c1" (world sampleDb []) in
  chatIdsUnique sampleDb /\
  fst out = Ok (Some "c1") /\
  (forall v, In v (votes (db (snd out))) -> vote_chatId (fields v) <> "c1") /\
  (forall m, In m (messages (db (snd out))) -> msg_chatId (fields m) <> "c1") /\
  (forall s, In s (streams (db (snd out))) -> stream_chatId (fields s) <> "c1") /\
  (forall c, In c (chats (db (snd out))) -> chat_id (fields c) <> "c1").
Proof.
  intros out.
  assert (U : chatIdsUnique sampleDb).
  { unfold chatIdsUnique. simpl.
    repeat (constructor; [simpl; intuition discriminate|]). constructor. }
  split; [exact U|]. split; [reflexivity|].
  apply (deleteChatById_cascade "c1" (world sampleDb []) (Some "c1") (snd out)).
  - exact U.
  - reflexivity.
Defined.

(** [deleteDocumentsByIdAfterTimestamp] returns when no round trip fails. *)
Lemma deleteDocumentsByIdAfterTimestamp_returns (id : string) (t : Date) (w : World) :
  forallb negb (faults w) = true ->
  exists r w', deleteDocumentsByIdAfterTimestamp id t w = (Ok r, w').
Proof.
  intros Q. unfold deleteDocumentsByIdAfterTimestamp, try_catch, bind.
  destruct (deleteMany_quiet Suggestion
              (fun s => (sug_documentId (fields s) =? id)
                        && (t <? sug_documentCreatedAt (fields s))%Z) w Q)
    as (n1 & w1 & -> & Q1).
  destruct (deleteMany_quiet Document
              (fun d => (doc_id (fields d) =? id)
                        && (t <? doc_createdAt (fields d))%Z) w1 Q1)
    as (n2 & w2 & -> & Q2).
  unfold ret. eauto.
Qed.

(** C6. When [deleteDocumentsByIdAfterTimestamp id t] returns, the store
    holds no document with that [id] created strictly after [t], and no
    suggestion on that document id whose [documentCreatedAt] is strictly
    after [t]. *)
Theorem deleteDocumentsByIdAfterTimestamp_cascade
    (id : string) (t : Date) (w : World) (r : option string) (w' : World) :
  deleteDocumentsByIdAfterTimestamp id t w = (Ok r, w') ->
  (forall d, In d (documents (db w')) ->
             doc_id (fields d) = id -> (doc_createdAt (fields d) <= t)%Z) /\
  (forall s, In s (suggestions (db w')) ->
             sug_documentId (fields s) = id -> (sug_documentCreatedAt (fields s) <= t)%Z).
Proof.
  intros H. unfold deleteDocumentsByIdAfterTimestamp in H.
  peel H. peel H. peel H. peel H.
  apply deleteMany_Ok in Hstep. destruct Hstep as (D1 & _).
  apply deleteMany_Ok in Hstep0. destruct Hstep0 as (D2 & _).
  subst w'. rewrite D2, D1. simpl.
  split.
  - intros d Hin Heq. apply filter_negb_none in Hin.
    apply andb_false_iff in Hin. destruct Hin as [Hin|Hin].
    + apply String.eqb_neq in Hin. contradiction.
    + apply Z.ltb_ge in Hin. exact Hin.
  - intros s Hin Heq. apply filter_negb_none in Hin.
    apply andb_false_iff in Hin. destruct Hin as [Hin|Hin].
    + apply String.eqb_neq in Hin. contradiction.
    + apply Z.ltb_ge in Hin. exact Hin.
Qed.

Lemma deleteDocumentsByIdAfterTimestamp_cascade_witness :
  let out := deleteDocumentsByIdAfterTimestamp "doc1" 400%Z (world sampleDb []) in
  fst out = Ok (Some "doc1") /\
  (forall d, In d (documents (db (snd out))) ->
             doc_id (fields d) = "doc1" -> (doc_createdAt (fields d) <= 400)%Z) /\
  (forall s, In s (suggestions (db (snd out))) ->
             sug_documentId (fields s) = "doc1" ->
             (sug_documentCreatedAt (fields s) <= 400)%Z).
Proof.
  intros out. split; [reflexivity|].
  apply (deleteDocumentsByIdAfterTimestamp_cascade
           "doc1" 400%Z (world sampleDb []) (Some "doc1") (snd out)).
  reflexivity.
Defined.

(** ** Creating users *)

Lemma create_Ok {I A} (m : Model I A) (input : I) w d w' :
  create m input w = (Ok d, w') ->
  castInput m input = inr (fields d) /\
  _id d = newObjectId (env w) (draws w) /\
  violated (indexes m) (fields d) (coll m (db w)) = None /\
  db w' = setColl m (coll m (db w) ++ [d]) (db w).
Proof.
  unfold create. intros H. peel H. peel H.
  unfold draw in Hstep. inversion Hstep; subst; clear Hstep.
  unfold asks in Hstep0. inversion Hstep0; subst; clear Hstep0.
  destruct (castInput m input) as [e|a]; [discriminate H|].
  apply roundTrip_Ok in H. destruct H as (H & _). simpl in H.
  destruct (violated (indexes m) a (coll m (db w))) eqn:V; inversion H; subst.
  simpl. auto.
Qed.

Lemma validated_inr {A} (a b : A) checks : validated a checks = inr b -> a = b.
Proof.
  unfold validated. destruct (firstError checks); intros H; inversion H; auto.
Qed.

Lemma castUser_inr (i : UserInput) (u : IUser) :
  castUser i = inr u ->
  in_id i = Some (user_id u) /\ in_email i = Some (user_email u) /\
  user_password u = in_password i.
Proof.
  unfold castUser. destruct (in_id i) as [id|]; [|discriminate].
  destruct (in_email i) as [email|]; [|discriminate].
  intros H. apply validated_inr in H. subst u. simpl. auto.
Qed.

(** What [createUser] does, whatever it is given: Mongoose rejects the
    document for want of the required [id], before anything is sent. *)
Lemma createUser_run (email password : string) (w : World) :
  createUser email password w =
  (Throw (EChatSDK {| kind := "bad_request:database"; message := "Failed to create user" |}),
   {| env := env w; db := db w; clock := clock w;
      draws := S (S (draws w)); faults := faults w;
      failures := failures w ++ [ValidationError "id"] |}).
Proof. reflexivity. Qed.

(** C8. Where a user with the email already exists, [createUser] raises
    [bad_request:database] and the user collection is left as it was, so
    that no second record with that email exists. *)
Theorem createUser_duplicate_email_fails (email password : string) (w : World) :
  (exists u, In u (users (db w)) /\ user_email (fields u) = email) ->
  fst (createUser email password w) =
    Throw (EChatSDK {| kind := "bad_request:database"; message := "Failed to create user" |}) /\
  users (db (snd (createUser email password w))) = users (db w) /\
  length (filter (fun u => user_email (fields u) =? email)
                 (users (db (snd (createUser email password w))))) =
  length (filter (fun u => user_email (fields u) =? email) (users (db w))).
Proof.
  intros _. rewrite createUser_run. simpl. auto.
Qed.

Lemma createUser_duplicate_email_fails_witness :
  (exists u, In u (users sampleDb) /\ user_email (fields u) = "ann@example.org") /\
  fst (createUser "ann@example.org" "hunter2" (world sampleDb [])) =
    Throw (EChatSDK {| kind := "bad_request:database"; message := "Failed to create user" |}) /\
  users (db (snd (createUser "ann@example.org" "hunter2" (world sampleDb [])))) =
    users sampleDb.
Proof.
  assert (E : exists u, In u (users sampleDb) /\ user_email (fields u) = "ann@example.org").
  { eexists. split; [left; reflexivity | reflexivity]. }
  split; [exact E|].
  destruct (createUser_duplicate_email_fails "ann@example.org" "hunter2"
              (world sampleDb []) E) as (H1 & H2 & _).
  split; [exact H1 | exact H2].
Defined.

(** C9. [createUser] raises [bad_request:database] on every input and in
    every state: the object it hands to [User.create] has no [id], the
    create is rejected on that required path, and the store is unchanged. *)
Theorem createUser_always_fails (email password : string) (w : World) :
  (forall hashed w0,
     fst (create User {| in_id := None; in_email := Some email;
                         in_password := Some hashed |} w0) =
     Throw (EStore (ValidationError "id"))) /\
  fst (createUser email password w) =
    Throw (EChatSDK {| kind := "bad_request:database"; message := "Failed to create user" |}) /\
  db (snd (createUser email password w)) = db w.
Proof.
  split; [reflexivity|]. rewrite createUser_run. simpl. auto.
Qed.

(** C10. When [createGuestUser] returns, a user has been appended to the
    store with the generated password hash, and the result is a
    one-element array whose only element has exactly the properties [id]
    and [email], those of the new user; it has no [password] property. *)
Theorem createGuestUser_result (w : World) (r : list Js.Obj) (w' : World) :
  createGuestUser w = (Ok r, w') ->
  exists u,
    users (db w') = users (db w) ++ [u] /\
    user_password (fields u) =
      Some (generateHashedPassword (env w)
              (generateUUID (env w) (S (draws w))) (S (S (draws w)))) /\
    r = [ [ ("id", user_id (fields u)); ("email", user_email (fields u)) ] ] /\
    length r = 1 /\
    (forall o, In o r -> Js.keys o = ["id"; "email"] /\ Js.get "password" o = None).
Proof.
  unfold createGuestUser. intros H.
  repeat peel H.
  unfold draw in Hstep, Hstep2, Hstep3. unfold asks in Hstep0, Hstep4.
  unfold Date_now in Hstep1.
  inversion Hstep; subst; clear Hstep.
  inversion Hstep0; subst; clear Hstep0.
  inversion Hstep1; subst; clear Hstep1.
  inversion Hstep2; subst; clear Hstep2.
  inversion Hstep3; subst; clear Hstep3.
  inversion Hstep4; subst; clear Hstep4.
  simpl in *.
  apply create_Ok in Hstep5. destruct Hstep5 as (C & _ & _ & D).
  apply castUser_inr in C. destruct C as (_ & _ & P). simpl in P, D.
  match type of D with context [ _ ++ [?u] ] => exists u end.
  rewrite D. simpl.
  split; [reflexivity|]. split; [exact P|].
  split; [reflexivity|]. split; [reflexivity|].
  intros o [<-|[]]. split; reflexivity.
Qed.

Lemma createGuestUser_result_witness :
  let w := world sampleDb [] in
  let out := createGuestUser w in
  fst out = Ok [ [ ("id", "uuid-0"); ("email", "guest-1700000000000") ] ] /\
  exists u,
    users (db (snd out)) = users (db w) ++ [u] /\
    user_password (fields u) =
      Some (generateHashedPassword (env w)
              (generateUUID (env w) (S (draws w))) (S (S (draws w)))) /\
    [ [ ("id", "uuid-0"); ("email", "guest-1700000000000") ] ] =
      [ [ ("id", user_id (fields u)); ("email", user_email (fields u)) ] ] /\
    length [ [ ("id", "uuid-0"); ("email", "guest-1700000000000") ] ] = 1 /\
    (forall o, In o [ [ ("id", "uuid-0"); ("email", "guest-1700000000000") ] ] ->
               Js.keys o = ["id"; "email"] /\ Js.get "password" o = None).
Proof.
  intros w out. split; [reflexivity|].
  apply (createGuestUser_result w
           [ [ ("id", "uuid-0"); ("email", "guest-1700000000000") ] ] (snd out)).
  reflexivity.
Defined.

(** ** Listing a user's chats *)

Lemma hd_error_filter {A} (p : A -> bool) (l : list A) :
  hd_error (filter p l) = List.find p l.
Proof.
  induction l as [|x l IH]; simpl; [reflexivity|].
  destruct (p x); simpl; auto.
Qed.

Lemma execOne_find_quiet {I A} (m : Model I A) p w :
  hd false (faults w) = false ->
  execOne (find m p) w =
  (Ok (List.find p (coll m (db w))), setDb (db w) (setFaults (tl (faults w)) w)).
Proof.
  intros Q. unfold execOne. rewrite (roundTrip_quiet _ _ Q). simpl.
  unfold answer. simpl. now rewrite hd_error_filter.
Qed.

Lemma execOne_find_Ok {I A} (m : Model I A) p w r w' :
  execOne (find m p) w = (Ok r, w') ->
  r = List.find p (coll m (db w)) /\ db w' = db w.
Proof.
  unfold execOne. intros H. apply roundTrip_Ok in H. destruct H as (H & _).
  inversion H as [[E D]]. unfold answer. simpl. rewrite hd_error_filter. auto.
Qed.

Lemma exec_Ok {A} (q : Query A) w r w' :
  exec q w = (Ok r, w') -> r = answer q (db w) /\ db w' = db w.
Proof.
  unfold exec. intros H. apply roundTrip_Ok in H. destruct H as (H & _).
  inversion H. auto.
Qed.

Lemma activeCursor_Some startingAfter endingBefore c :
  activeCursor startingAfter endingBefore = Some c ->
  (Js.truthy startingAfter = true /\ Js.str startingAfter = c) \/
  (Js.truthy startingAfter = false /\ Js.truthy endingBefore = true /\
   Js.str endingBefore = c).
Proof.
  unfold activeCursor.
  destruct (Js.truthy startingAfter) eqn:S1.
  - intros ->. left. auto.
  - destruct (Js.truthy endingBefore) eqn:S2; [|discriminate].
    intros ->. right. auto.
Qed.

(** C1, as the code has it. With a truthy cursor that names no chat, the
    [not_found:database] error raised inside the [try] block is caught by
    that block's own handler: [getChatsByUserId] raises
    [bad_request:database], and the listing is not run (the cursor lookup
    is the only round trip made). *)
Theorem getChatsByUserId_missing_cursor_kind
    (id : string) (limit_ : Z) (startingAfter endingBefore : option string)
    (w : World) (c : string) :
  activeCursor startingAfter endingBefore = Some c ->
  lookupChat c (db w) = None ->
  fst (getChatsByUserId id limit_ startingAfter endingBefore w) =
    Throw (EChatSDK {| kind := "bad_request:database";
                       message := "Failed to get chats by user id" |}) /\
  db (snd (getChatsByUserId id limit_ startingAfter endingBefore w)) = db w /\
  faults (snd (getChatsByUserId id limit_ startingAfter endingBefore w)) = tl (faults w).
Proof.
  intros Hc Hnone. unfold lookupChat in Hnone.
  unfold getChatsByUserId, try_catch, bind.
  apply activeCursor_Some in Hc.
  destruct Hc as [(T1 & S1) | (T1 & T2 & S2)].
  - rewrite T1, S1.
    destruct (hd false (faults w)) eqn:Q.
    + unfold execOne. rewrite (roundTrip_lost _ _ Q). simpl.
      repeat split; auto.
    + rewrite (execOne_find_quiet _ _ _ Q). simpl. rewrite Hnone. simpl.
      repeat split; auto.
  - rewrite T1, T2, S2.
    destruct (hd false (faults w)) eqn:Q.
    + unfold execOne. rewrite (roundTrip_lost _ _ Q). simpl.
      repeat split; auto.
    + rewrite (execOne_find_quiet _ _ _ Q). simpl. rewrite Hnone. simpl.
      repeat split; auto.
Qed.

Lemma getChatsByUserId_missing_cursor_kind_witness :
  let w := world sampleDb [] in
  activeCursor (Some "no-such-chat") None = Some "no-such-chat" /\
  lookupChat "no-such-chat" (db w) = None /\
  fst (getChatsByUserId "u1" 2 (Some "no-such-chat") None w) =
    Throw (EChatSDK {| kind := "bad_request:database";
                       message := "Failed to get chats by user id" |}) /\
  kind {| kind := "bad_request:database"; message := "Failed to get chats by user id" |}
    <> "not_found:database".
Proof.
  intros w.
  split; [reflexivity|]. split; [reflexivity|].
  split.
  - apply (getChatsByUserId_missing_cursor_kind
             "u1" 2 (Some "no-such-chat") None w "no-such-chat");
      reflexivity.
  - simpl. discriminate.
Defined.

Section SortingFacts.
Context {A : Type} (le : A -> A -> bool).

Lemma length_insertSorted (x : A) (l : list A) :
  length (insertSorted le x l) = S (length l).
Proof.
  induction l as [|y l IH]; simpl; [reflexivity|].
  destruct (le x y); simpl; [reflexivity | now rewrite IH].
Qed.

Lemma length_sortBy (l : list A) : length (sortBy le l) = length l.
Proof.
  induction l as [|x l IH]; simpl; [reflexivity|].
  now rewrite length_insertSorted, IH.
Qed.

End SortingFacts.

Lemma getChatsByUserId_Ok id limit_ startingAfter endingBefore w page w' :
  getChatsByUserId id limit_ startingAfter endingBefore w = (Ok page, w') ->
  page = pageOf limit_
           (applyLimit (limit_ + 1)
              (sortBy createdAtDesc (matchingChats id startingAfter endingBefore (db w)))) /\
  db w' = db w.
Proof.
  intros H. unfold getChatsByUserId in H.
  peel H. peel H. peel H. peel H.
  apply exec_Ok in Hstep0. destruct Hstep0 as (R & D).
  subst page w'. rewrite D. clear D.
  assert (Q : q_coll a = chats /\
              (forall c, q_filter a c =
                         (chat_userId (fields c) =? id)
                         && cursorFilter startingAfter endingBefore (db w) c) /\
              db w0 = db w).
  { unfold cursorFilter.
    destruct (Js.truthy startingAfter) eqn:T1;
      [| destruct (Js.truthy endingBefore) eqn:T2 ].
    - peel Hstep. apply execOne_find_Ok in Hstep0. destruct Hstep0 as (S & D).
      unfold lookupChat. simpl in S. rewrite <- S.
      destruct a1 as [sel|]; [|discriminate Hstep].
      peel Hstep. subst a w0. simpl. auto.
    - peel Hstep. apply execOne_find_Ok in Hstep0. destruct Hstep0 as (S & D).
      unfold lookupChat. simpl in S. rewrite <- S.
      destruct a1 as [sel|]; [|discriminate Hstep].
      peel Hstep. subst a w0. simpl. auto.
    - peel Hstep. subst a w0. simpl. split; [reflexivity|]. split; [|reflexivity].
      intros c. now rewrite andb_true_r. }
  destruct Q as (Qc & Qf & Qd).
  split; [|exact Qd].
  subst a0. unfold answer. simpl. rewrite Qc, Qd.
  unfold matchingChats, pageOf.
  rewrite (filter_ext _ _ Qf). reflexivity.
Qed.

Lemma pageOf_limit (limit_ : Z) (l : list (Doc IChat)) :
  (0 <= limit_)%Z ->
  page_chats (pageOf limit_ (applyLimit (limit_ + 1) l)) = firstn (Z.to_nat limit_) l /\
  (hasMore (pageOf limit_ (applyLimit (limit_ + 1) l)) = true <->
   Z.to_nat limit_ < length l).
Proof.
  intros Hpos. unfold pageOf, applyLimit. simpl.
  destruct (Z.eqb_spec (limit_ + 1) 0) as [E|_]; [lia|].
  replace (Z.abs_nat (limit_ + 1)) with (S (Z.to_nat limit_)) by lia.
  set (n := Z.to_nat limit_).
  rewrite length_firstn.
  destruct (Z.ltb_spec limit_ (Z.of_nat (Nat.min (S n) (length l)))) as [Lt|Ge].
  - split.
    + unfold Js.slice0. destruct (Z.ltb_spec limit_ 0) as [?|_]; [lia|].
      fold n. rewrite firstn_firstn. now replace (Nat.min n (S n)) with n by lia.
    + split; [intros _; lia | reflexivity].
  - assert (Hlen : length l <= n) by lia.
    split.
    + rewrite !firstn_all2 by lia. reflexivity.
    + split; [discriminate | lia].
Qed.

Lemma getChatsByUserId_returns id limit_ startingAfter endingBefore w :
  forallb negb (faults w) = true ->
  ~ cursorMissing startingAfter endingBefore (db w) ->
  exists page w',
    getChatsByUserId id limit_ startingAfter endingBefore w = (Ok page, w').
Proof.
  intros Hq Hc.
  pose proof (quiet_hd _ Hq) as Q1.
  pose proof (quiet_hd _ (quiet_tl _ Hq)) as Q2.
  unfold cursorMissing, activeCursor in Hc.
  unfold getChatsByUserId, try_catch, bind.
  destruct (Js.truthy startingAfter) eqn:T1;
    [| destruct (Js.truthy endingBefore) eqn:T2 ].
  - rewrite (execOne_find_quiet _ _ _ Q1). simpl.
    destruct (List.find _ (chats (db w))) as [s|] eqn:F.
    + simpl. unfold exec. rewrite roundTrip_quiet by exact Q2. simpl. eauto.
    + exfalso. apply Hc. exists (Js.str startingAfter). split; [|exact F].
      destruct startingAfter; [reflexivity | discriminate T1].
  - rewrite (execOne_find_quiet _ _ _ Q1). simpl.
    destruct (List.find _ (chats (db w))) as [s|] eqn:F.
    + simpl. unfold exec. rewrite roundTrip_quiet by exact Q2. simpl. eauto.
    + exfalso. apply Hc. exists (Js.str endingBefore). split; [|exact F].
      destruct endingBefore; [reflexivity | discriminate T2].
  - simpl. unfold exec. rewrite roundTrip_quiet by exact Q1. simpl. eauto.
Qed.

(** C3. For a limit [N >= 0]: [getChatsByUserId] returns whenever no round
    trip fails and the cursor, if any, names a chat; and whenever it
    returns, the page holds at most [N] chats (the [N] most recent of the
    user's chats that pass the cursor filter) and [hasMore] is true exactly
    when the user has more such chats than the page holds. *)
Theorem getChatsByUserId_page
    (id : string) (N : Z) (startingAfter endingBefore : option string) (w : World) :
  (0 <= N)%Z ->
  (forallb negb (faults w) = true ->
   ~ cursorMissing startingAfter endingBefore (db w) ->
   exists page w', getChatsByUserId id N startingAfter endingBefore w = (Ok page, w')) /\
  (forall page w',
     getChatsByUserId id N startingAfter endingBefore w = (Ok page, w') ->
     (Z.of_nat (length (page_chats page)) <= N)%Z /\
     (hasMore page = true <->
      length (page_chats page) <
      length (matchingChats id startingAfter endingBefore (db w))) /\
     page_chats page =
       firstn (Z.to_nat N)
         (sortBy createdAtDesc (matchingChats id startingAfter endingBefore (db w)))).
Proof.
  intros Hpos. split; [apply getChatsByUserId_returns|].
  intros page w' H. apply getChatsByUserId_Ok in H. destruct H as (-> & _).
  destruct (pageOf_limit N
              (sortBy createdAtDesc (matchingChats id startingAfter endingBefore (db w)))
              Hpos) as (Hp & Hm).
  rewrite Hp, Hm. rewrite length_firstn, length_sortBy.
  split; [lia|]. split; [lia | reflexivity].
Qed.

Lemma getChatsByUserId_page_witness :
  let w := world sampleDb [] in
  let out := getChatsByUserId "u1" 2 None None w in
  (0 <= 2)%Z /\
  fst out = Ok {| page_chats := [ chatOf "b3" "c3" 300 "u1"; chatOf "b2" "c2" 200 "u1" ];
                  hasMore := true |} /\
  (Z.of_nat (length [ chatOf "b3" "c3" 300 "u1"; chatOf "b2" "c2" 200 "u1" ]) <= 2)%Z /\
  length (matchingChats "u1" None None (db w)) = 3.
Proof.
  intros w out.
  assert (P : (0 <= 2)%Z) by lia.
  split; [exact P|]. split; [reflexivity|].
  destruct (getChatsByUserId_page "u1" 2 None None w P) as (_ & H).
  destruct (H {| page_chats := [ chatOf "b3" "c3" 300 "u1"; chatOf "b2" "c2" 200 "u1" ];
                 hasMore := true |} (snd out) eq_refl) as (H1 & _).
  split; [exact H1 | reflexivity].
Defined.

(** ** Counting a user's messages *)

(** What the code counts: the [$in] operand holds the string casts of the
    user's chat documents, not their [id]s. *)
Lemma getMessageCountByUserId_Ok id differenceInHours w n w' :
  getMessageCountByUserId id differenceInHours w = (Ok n, w') ->
  n = length
        (filter (fun m => (msg_role (fields m) =? "user")
                          && (clock w - differenceInHours * 60 * 60 * 1000
                              <=? msg_createdAt (fields m))%Z
                          && isIn (msg_chatId (fields m))
                               (map (fun c => docToString (env w) (_id c))
                                    (filter (fun c => chat_userId (fields c) =? id)
                                            (chats (db w)))))
                (messages (db w))).
Proof.
  intros H. unfold getMessageCountByUserId in H.
  repeat peel H.
  unfold Date_now in Hstep. inversion Hstep; subst; clear Hstep.
  unfold exec in Hstep0. apply roundTrip_Ok in Hstep0.
  destruct Hstep0 as (R & E & _). inversion R as [[Ra Rd]]. clear R.
  unfold asks in Hstep1. inversion Hstep1; subst; clear Hstep1.
  destruct (Js.timeValue _); [|discriminate Hstep2].
  unfold countDocuments in Hstep2. apply roundTrip_Ok in Hstep2.
  destruct Hstep2 as (R & _). inversion R as [[Rn Rd']]. clear R.
  rewrite <- Rd, E. reflexivity.
Qed.

(** C2, as the code has it. A user owns a chat that holds one recent
    message of role ["user"]; unless Mongoose's string cast of the chat
    document happens to be the chat's [id], [getMessageCountByUserId]
    returns 0 where the count of the user's messages is 1. *)
Theorem getMessageCountByUserId_misses_owned_messages (e : Env) :
  docToString e "b1" <> "c1" ->
  let w := {| env := e; db := countDb; clock := 1700000000000%Z;
              draws := 0; faults := []; failures := [] |} in
  fst (getMessageCountByUserId "u1" 24 w) = Ok 0 /\
  userMessagesSince "u1" (clock w - 24 * 60 * 60 * 1000) (db w) = 1.
Proof.
  intros Hcast w. split; [|reflexivity].
  assert (E : ("c1" =? docToString e "b1") = false).
  { apply String.eqb_neq. congruence. }
  unfold getMessageCountByUserId, try_catch, bind, Date_now, exec, asks,
    countDocuments, roundTrip.
  cbn -[String.eqb].
  change ("u1" =? "u1") with true. change ("user" =? "user") with true.
  cbn -[String.eqb]. rewrite E. reflexivity.
Qed.

Lemma getMessageCountByUserId_misses_owned_messages_witness :
  docToString sampleEnv "b1" <> "c1" /\
  fst (getMessageCountByUserId "u1" 24 (world countDb [])) = Ok 0 /\
  userMessagesSince "u1" (1700000000000 - 24 * 60 * 60 * 1000) countDb = 1.
Proof.
  assert (H : docToString sampleEnv "b1" <> "c1") by (simpl; discriminate).
  split; [exact H|].
  exact (getMessageCountByUserId_misses_owned_messages sampleEnv H).
Defined.

(** ** Voting *)

(** C5, as the code has it. The lookup is by [messageId] alone, the update
    by [(messageId, chatId)]. Starting from the empty store, a vote on
    message ["m1"] is first recorded under chat ["c2"]; the two calls for
    [("c1", "m1")] then both find that vote, update nothing and return, and
    no vote exists for the pair afterwards. *)
Theorem voteMessage_twice_stray_vote :
  let stray := voteMessage "c2" "m1" up (world emptyDb []) in
  let first := voteMessage "c1" "m1" up (snd stray) in
  let second := voteMessage "c1" "m1" down (snd first) in
  votes (db (snd stray)) = [ voteOf (newObjectId sampleEnv 0) "c2" "m1" true ] /\
  fst first = Ok (Updated 0) /\
  fst second = Ok (Updated 0) /\
  votesFor "c1" "m1" (db (snd second)) = [] /\
  votes (db (snd second)) = votes (db (snd stray)).
Proof. repeat split; reflexivity. Qed.

(** ** The function boundary *)

Section Boundary.
Context {A B : Type}.

Lemma propagates_pure (m : M A) :
  (forall w, faults (snd (m w)) = faults w) -> propagates m.
Proof.
  intros H w. exists []. rewrite H. split; [reflexivity | intros []].
Qed.

Lemma propagates_ret (a : A) : propagates (ret a).
Proof. now apply propagates_pure. Qed.

Lemma propagates_throw (e : Exn) : propagates (@throw A e).
Proof. now apply propagates_pure. Qed.

Lemma propagates_refuse (e : StoreError) : propagates (@refuse A e).
Proof. now apply propagates_pure. Qed.

Lemma propagates_newChatSDKError code msg : propagates (@newChatSDKError A code msg).
Proof. now apply propagates_pure. Qed.

Lemma propagates_asks (f : Env -> A) : propagates (asks f).
Proof. now apply propagates_pure. Qed.

Lemma propagates_roundTrip (op : Database -> Result A * Database) :
  propagates (roundTrip op).
Proof.
  intros w. unfold roundTrip.
  destruct (faults w) as [|[|] fs] eqn:F.
  - exists []. destruct (op (db w)) as [[a|[e|e]] d]; simpl;
      (split; [reflexivity | intros []]).
  - exists [true]. simpl. split; [reflexivity | eauto].
  - exists [false]. destruct (op (db w)) as [[a|[e|e]] d]; simpl;
      (split; [reflexivity | intros [?|[]]; discriminate]).
Qed.

Lemma propagates_bind (m : M A) (k : A -> M B) :
  propagates m -> (forall a, propagates (k a)) -> propagates (bind m k).
Proof.
  intros Hm Hk w. unfold bind.
  destruct (Hm w) as (u1 & E1 & T1).
  destruct (m w) as [[a|e] w1] eqn:Mw; simpl in *.
  - destruct (Hk a w1) as (u2 & E2 & T2).
    exists (u1 ++ u2). rewrite <- app_assoc, <- E2. split; [exact E1|].
    intros Hin. apply in_app_or in Hin. destruct Hin as [Hin|Hin].
    + destruct (T1 Hin) as (x & Hx). discriminate Hx.
    + exact (T2 Hin).
  - exists u1. split; [exact E1 | eauto].
Qed.

Lemma propagates_try_catch (body : M A) code msg :
  propagates body ->
  propagates (try_catch body (fun _ => newChatSDKError code msg)).
Proof.
  intros Hb w. unfold try_catch.
  destruct (Hb w) as (u & E & T).
  destruct (body w) as [[a|e] w1] eqn:Bw; simpl in *.
  - exists u. split; [exact E | exact T].
  - exists u. split; [exact E | eauto].
Qed.

Lemma raisesTagged_try_catch (body : M A) code msg :
  databaseKind code -> msg <> "" ->
  raisesTagged (try_catch body (fun _ => newChatSDKError code msg)).
Proof.
  intros Hk Hm w x H. unfold try_catch in H.
  destruct (body w) as [[a|e] w1]; simpl in H; [discriminate H|].
  inversion H; subst. eexists. split; [reflexivity|]. simpl. auto.
Qed.

Lemma raisesTagged_bind (m : M A) (k : A -> M B) :
  raisesTagged m -> (forall a, raisesTagged (k a)) -> raisesTagged (bind m k).
Proof.
  intros Hm Hk w x. unfold bind.
  destruct (m w) as [[a|e] w1] eqn:Mw.
  - apply Hk.
  - intros H. simpl in H. inversion H; subst.
    apply (Hm w). rewrite Mw. reflexivity.
Qed.

Lemma raisesTagged_total (m : M A) :
  (forall w, exists a, fst (m w) = Ok a) -> raisesTagged m.
Proof.
  intros H w x Hx. destruct (H w) as (a & Ha). rewrite Ha in Hx. discriminate Hx.
Qed.

End Boundary.

Lemma propagates_Date_now : propagates Date_now.
Proof. now apply propagates_pure. Qed.

Lemma propagates_draw : propagates draw.
Proof. now apply propagates_pure. Qed.

Lemma propagates_drawMany k : propagates (drawMany k).
Proof. now apply propagates_pure. Qed.

Lemma propagates_exec {A} (q : Query A) : propagates (exec q).
Proof. apply propagates_roundTrip. Qed.

Lemma propagates_execOne {A} (q : Query A) : propagates (execOne q).
Proof. apply propagates_roundTrip. Qed.

Lemma propagates_countDocuments {I A} (m : Model I A) p : propagates (countDocuments m p).
Proof. apply propagates_roundTrip. Qed.

Lemma propagates_deleteMany {I A} (m : Model I A) p : propagates (deleteMany m p).
Proof. apply propagates_roundTrip. Qed.

Lemma propagates_deleteOne {I A} (m : Model I A) p : propagates (deleteOne m p).
Proof. apply propagates_roundTrip. Qed.

Lemma propagates_updateOne {I A} (m : Model I A) p f : propagates (updateOne m p f).
Proof. apply propagates_roundTrip. Qed.

Lemma propagates_create {I A} (m : Model I A) input : propagates (create m input).
Proof.
  unfold create.
  apply propagates_bind; [apply propagates_draw | intros n].
  apply propagates_bind; [apply propagates_asks | intros oid].
  destruct (castInput m input);
    [apply propagates_refuse | apply propagates_roundTrip].
Qed.

Lemma propagates_insertMany {I A} (m : Model I A) inputs : propagates (insertMany m inputs).
Proof.
  unfold insertMany.
  apply propagates_bind; [apply propagates_drawMany | intros n].
  apply propagates_bind; [apply propagates_asks | intros oid].
  destruct (castAll (castInput m) inputs) as [e|[|a l]];
    [apply propagates_refuse | apply propagates_ret | apply propagates_roundTrip].
Qed.

Create HintDb boundary.
#[local] Hint Resolve
  propagates_ret propagates_throw propagates_refuse propagates_newChatSDKError
  propagates_asks
  propagates_Date_now propagates_draw propagates_exec propagates_execOne
  propagates_countDocuments propagates_deleteMany propagates_deleteOne
  propagates_updateOne propagates_create propagates_insertMany
  propagates_try_catch : boundary.

(** Walks down a query function: binds, branches, then the leaves. *)
Ltac boundary :=
  repeat match goal with
    | |- propagates (try_catch _ _) => apply propagates_try_catch
    | |- propagates (bind _ _) => apply propagates_bind; [| intros ?]
    | |- propagates (match ?x with _ => _ end) => destruct x
    | |- propagates (let _ := _ in _) => cbv zeta
    | |- propagates _ => solve [auto with boundary]
    end.

Lemma databaseKind_bad_request : databaseKind "bad_request:database".
Proof. now left. Qed.

Lemma propagates_run {A} (c : Call A) : propagates (run c).
Proof.
  destruct c; cbn [run];
    [ unfold getUser | unfold createUser | unfold createGuestUser | unfold saveChat
    | unfold deleteChatById | unfold getChatsByUserId | unfold getChatById
    | unfold saveMessages | unfold getMessagesByChatId | unfold voteMessage
    | unfold getVotesByChatId | unfold saveDocument | unfold getDocumentsById
    | unfold getDocumentById | unfold deleteDocumentsByIdAfterTimestamp
    | unfold saveSuggestions | unfold getSuggestionsByDocumentId | unfold getMessageById
    | unfold deleteMessagesByChatIdAfterTimestamp | unfold updateChatVisiblityById
    | unfold getMessageCountByUserId | unfold createStreamId
    | unfold getStreamIdsByChatId ];
    boundary.
Qed.

Ltac tagging :=
  repeat match goal with
    | |- raisesTagged (try_catch _ _) =>
        apply raisesTagged_try_catch; [apply databaseKind_bad_request | discriminate]
    | |- raisesTagged (bind _ _) => apply raisesTagged_bind; [| intros ?]
    | |- raisesTagged (let _ := _ in _) => cbv zeta
    | |- raisesTagged _ =>
        solve [apply raisesTagged_total; intros ?; eexists; reflexivity]
    end.

Lemma raisesTagged_run {A} (c : Call A) : raisesTagged (run c).
Proof.
  destruct c; cbn [run];
    [ unfold getUser | unfold createUser | unfold createGuestUser | unfold saveChat
    | unfold deleteChatById | unfold getChatsByUserId | unfold getChatById
    | unfold saveMessages | unfold getMessagesByChatId | unfold voteMessage
    | unfold getVotesByChatId | unfold saveDocument | unfold getDocumentsById
    | unfold getDocumentById | unfold deleteDocumentsByIdAfterTimestamp
    | unfold saveSuggestions | unfold getSuggestionsByDocumentId | unfold getMessageById
    | unfold deleteMessagesByChatIdAfterTimestamp | unfold updateChatVisiblityById
    | unfold getMessageCountByUserId | unfold createStreamId
    | unfold getStreamIdsByChatId ];
    tagging.
Qed.

Section Surfacing.
Context {A B : Type}.

Lemma surfaces_silent (m : M A) :
  (forall w, failures (snd (m w)) = failures w) -> surfaces m.
Proof.
  intros H w. exists []. rewrite H, app_nil_r. split; [reflexivity | congruence].
Qed.

Lemma surfaces_refuse (e : StoreError) : surfaces (@refuse A e).
Proof. intros w. exists [e]. simpl. split; [reflexivity | eauto]. Qed.

Lemma surfaces_roundTrip (op : Database -> Result A * Database) :
  surfaces (roundTrip op).
Proof.
  intros w. unfold roundTrip.
  destruct (faults w) as [|[|] fs].
  - destruct (op (db w)) as [[a|[e|e]] d]; simpl.
    + exists []. rewrite app_nil_r. split; [reflexivity | congruence].
    + exists [e]. split; [reflexivity | eauto].
    + exists []. rewrite app_nil_r. split; [reflexivity | eauto].
  - exists [ConnectionError]. simpl. split; [reflexivity | eauto].
  - destruct (op (db w)) as [[a|[e|e]] d]; simpl.
    + exists []. rewrite app_nil_r. split; [reflexivity | congruence].
    + exists [e]. split; [reflexivity | eauto].
    + exists []. rewrite app_nil_r. split; [reflexivity | eauto].
Qed.

(** The record misses no failure of a round trip: what a round trip
    raises as a store error is what it enters. *)
Lemma roundTrip_records (op : Database -> Result A * Database) (w : World) (e : StoreError) :
  fst (roundTrip op w) = Throw (EStore e) ->
  failures (snd (roundTrip op w)) = failures w ++ [e].
Proof.
  unfold roundTrip.
  destruct (faults w) as [|[|] fs];
    try (destruct (op (db w)) as [[a|[x|x]] d]); simpl; intros H;
    inversion H; reflexivity.
Qed.

Lemma surfaces_bind (m : M A) (k : A -> M B) :
  surfaces m -> (forall a, surfaces (k a)) -> surfaces (bind m k).
Proof.
  intros Hm Hk w. unfold bind.
  destruct (Hm w) as (n1 & E1 & T1).
  destruct (m w) as [[a|e] w1] eqn:Mw; simpl in *.
  - destruct n1 as [|x n1].
    + destruct (Hk a w1) as (n2 & E2 & T2).
      exists n2. rewrite E2, E1, app_nil_r. auto.
    + destruct T1 as (y & Hy); [discriminate | discriminate Hy].
  - exists n1. split; [exact E1 | eauto].
Qed.

(** A boundary that rethrows whatever it catches hides no failure. *)
Lemma surfaces_try_catch (body : M A) code msg :
  surfaces body ->
  surfaces (try_catch body (fun _ => newChatSDKError code msg)).
Proof.
  intros Hb w. unfold try_catch.
  destruct (Hb w) as (n & E & T).
  destruct (body w) as [[a|e] w1] eqn:Bw; simpl in *.
  - exists n. split; [exact E | exact T].
  - exists n. split; [exact E | eauto].
Qed.

End Surfacing.

Lemma surfaces_create {I A} (m : Model I A) input : surfaces (create m input).
Proof.
  unfold create.
  apply surfaces_bind; [now apply surfaces_silent | intros n].
  apply surfaces_bind; [now apply surfaces_silent | intros oid].
  destruct (castInput m input); [apply surfaces_refuse | apply surfaces_roundTrip].
Qed.

Lemma surfaces_insertMany {I A} (m : Model I A) inputs : surfaces (insertMany m inputs).
Proof.
  unfold insertMany.
  apply surfaces_bind; [now apply surfaces_silent | intros n].
  apply surfaces_bind; [now apply surfaces_silent | intros oid].
  destruct (castAll (castInput m) inputs) as [e|[|a l]];
    [apply surfaces_refuse | now apply surfaces_silent | apply surfaces_roundTrip].
Qed.

(** Walks down a query function: binds, branches, then the store
    operations and the steps that touch no store. *)
Ltac surfacing :=
  repeat match goal with
    | |- surfaces (try_catch _ _) => apply surfaces_try_catch
    | |- surfaces (bind _ _) => apply surfaces_bind; [| intros ?]
    | |- surfaces (match ?x with _ => _ end) => destruct x
    | |- surfaces (let _ := _ in _) => cbv zeta
    | |- surfaces (create _ _) => apply surfaces_create
    | |- surfaces (insertMany _ _) => apply surfaces_insertMany
    | |- surfaces (refuse _) => apply surfaces_refuse
    | |- surfaces (exec _) => apply surfaces_roundTrip
    | |- surfaces (execOne _) => apply surfaces_roundTrip
    | |- surfaces (countDocuments _ _) => apply surfaces_roundTrip
    | |- surfaces (deleteMany _ _) => apply surfaces_roundTrip
    | |- surfaces (deleteOne _ _) => apply surfaces_roundTrip
    | |- surfaces (updateOne _ _ _) => apply surfaces_roundTrip
    | |- surfaces _ => solve [apply surfaces_silent; intros ?; reflexivity]
    end.

Lemma surfaces_run {A} (c : Call A) : surfaces (run c).
Proof.
  destruct c; cbn [run];
    [ unfold getUser | unfold createUser | unfold createGuestUser | unfold saveChat
    | unfold deleteChatById | unfold getChatsByUserId | unfold getChatById
    | unfold saveMessages | unfold getMessagesByChatId | unfold voteMessage
    | unfold getVotesByChatId | unfold saveDocument | unfold getDocumentsById
    | unfold getDocumentById | unfold deleteDocumentsByIdAfterTimestamp
    | unfold saveSuggestions | unfold getSuggestionsByDocumentId | unfold getMessageById
    | unfold deleteMessagesByChatIdAfterTimestamp | unfold updateChatVisiblityById
    | unfold getMessageCountByUserId | unfold createStreamId
    | unfold getStreamIdsByChatId ];
    surfacing.
Qed.

(** C7. For every exported function, every input and every state:
    whatever the call raises is a [ChatSDKError] whose kind is
    [bad_request:database] or [not_found:database] and whose message is not
    empty, so that no error of the store crosses the boundary; and when a
    store operation of the call fails (the request is lost, or Mongoose or
    the store refuses it: a validation or cast error, a duplicate key),
    the call does raise such an error. The failures of the call are what
    it adds to the record of failures; a lost request is also read off the
    failure schedule. *)
Theorem store_failures_are_tagged {A : Type} (c : Call A) (w : World) :
  (forall x, fst (run c w) = Throw x -> tagged x) /\
  (failures (snd (run c w)) <> failures w ->
   exists e, fst (run c w) = Throw (EChatSDK e) /\
             databaseKind (kind e) /\ message e <> "") /\
  (exists used,
     faults w = used ++ faults (snd (run c w)) /\
     (In true used ->
      exists e, fst (run c w) = Throw (EChatSDK e) /\
                databaseKind (kind e) /\ message e <> "")).
Proof.
  split; [apply raisesTagged_run|]. split.
  - intros Hf. destruct (surfaces_run c w) as (new & E & T).
    destruct T as (x & Hx).
    { intros ->. apply Hf. now rewrite E, app_nil_r. }
    destruct (raisesTagged_run c w x Hx) as (e & -> & K & Msg).
    exists e. auto.
  - destruct (propagates_run c w) as (used & E & T).
    exists used. split; [exact E|].
    intros Hin. destruct (T Hin) as (x & Hx).
    destruct (raisesTagged_run c w x Hx) as (e & -> & K & Msg).
    exists e. auto.
Qed.

Lemma store_failures_are_tagged_witness :
  let w := world sampleDb [] in
  let out := run (CreateStreamId "st1" "c1") w in
  failures (snd out) = [DuplicateKeyError "id_1"] /\
  failures (snd out) <> failures w /\
  fst out = Throw (EChatSDK {| kind := "bad_request:database";
                               message := "Failed to create stream id" |}) /\
  exists e, fst out = Throw (EChatSDK e) /\
            databaseKind (kind e) /\ message e <> "".
Proof.
  intros w out.
  assert (F : failures (snd out) <> failures w) by (simpl; discriminate).
  split; [reflexivity|]. split; [exact F|]. split; [reflexivity|].
  exact (proj1 (proj2 (store_failures_are_tagged (CreateStreamId "st1" "c1") w)) F).
Defined.

(** ** The unique indexes are an invariant of the API *)

Section KeyedLists.
Context {A K : Type} (key : A -> K).

Lemma NoDup_map_filter (p : A -> bool) (l : list A) :
  NoDup (map key l) -> NoDup (map key (filter p l)).
Proof.
  induction l as [|x l IH]; simpl; [auto|].
  intros H. inversion H as [|? ? Hn Hd]; subst.
  destruct (p x); simpl; [|auto].
  constructor; [|auto].
  intros Hin. apply Hn. apply in_map_iff in Hin. destruct Hin as (y & E & Hy).
  apply filter_In in Hy. apply in_map_iff. exists y. tauto.
Qed.

Lemma NoDup_map_removeFirst (p : A -> bool) (l : list A) :
  NoDup (map key l) -> NoDup (map key (removeFirst p l)).
Proof.
  induction l as [|x l IH]; simpl; [auto|].
  intros H. inversion H as [|? ? Hn Hd]; subst.
  destruct (p x); simpl; [auto|].
  constructor; [|auto].
  intros Hin. apply Hn. apply in_map_iff in Hin. destruct Hin as (y & E & Hy).
  apply removeFirst_subset in Hy. apply in_map_iff. exists y. tauto.
Qed.

Lemma map_updateFirst (p : A -> bool) (g : A -> A) (l : list A) :
  (forall x, key (g x) = key x) ->
  map key (updateFirst p g l) = map key l.
Proof.
  intros Hg. induction l as [|x l IH]; simpl; [reflexivity|].
  destruct (p x); simpl; [now rewrite Hg | now rewrite IH].
Qed.

Lemma NoDup_map_snoc (l : list A) (x : A) :
  NoDup (map key l) -> (forall y, In y l -> key y <> key x) ->
  NoDup (map key (l ++ [x])).
Proof.
  intros Hd Hx. rewrite map_app. simpl.
  apply NoDup_app.
  - exact Hd.
  - constructor; [intros [] | constructor].
  - intros k Hk [<-|[]]. apply in_map_iff in Hk.
    destruct Hk as (y & E & Hy). exact (Hx y Hy E).
Qed.

End KeyedLists.

Lemma violated_None {A} (ixs : list (string * (A -> A -> bool))) a c name same :
  violated ixs a c = None -> In (name, same) ixs ->
  forall d, In d c -> same a (fields d) = false.
Proof.
  unfold violated. intros V Hin d Hd.
  destruct (List.find _ ixs) as [ix|] eqn:F; [discriminate V|].
  pose proof (find_none _ _ F _ Hin) as E. simpl in E.
  destruct (same a (fields d)) eqn:S; [|reflexivity].
  assert (X : existsb (fun d0 => same a (fields d0)) c = true).
  { apply existsb_exists. eauto. }
  congruence.
Qed.

Section Preservation.
Context {A : Type} (P : Database -> Prop).

Lemma preserves_pure (m : M A) :
  (forall w, db (snd (m w)) = db w) -> preserves P m.
Proof. intros H w Hp. now rewrite H. Qed.

Lemma preserves_roundTrip (op : Database -> Result A * Database) :
  (forall d, P d -> P (snd (op d))) -> preserves P (roundTrip op).
Proof.
  intros H w Hp. unfold roundTrip.
  destruct (faults w) as [|[|] fs]; simpl; try exact Hp;
    specialize (H _ Hp); destruct (op (db w)) as [[a|[e|e]] d]; exact H.
Qed.

Lemma preserves_bind {B} (m : M B) (k : B -> M A) :
  preserves P m -> (forall b, preserves P (k b)) -> preserves P (bind m k).
Proof.
  intros Hm Hk w Hp. unfold bind. specialize (Hm w Hp).
  destruct (m w) as [[b|e] w1]; simpl in *; [now apply Hk | exact Hm].
Qed.

Lemma preserves_try_catch (body : M A) code msg :
  preserves P body ->
  preserves P (try_catch body (fun _ => newChatSDKError code msg)).
Proof.
  intros Hb w Hp. unfold try_catch. specialize (Hb w Hp).
  destruct (body w) as [[a|e] w1]; simpl in *; exact Hb.
Qed.

End Preservation.

Section UniqueOn.
Context {I A K : Type} (m : Model I A) (key : A -> K).

Lemma preserves_exec {B} (q : Query B) : preserves (uniqueOn m key) (exec q).
Proof. apply preserves_roundTrip. auto. Qed.

Lemma preserves_execOne {B} (q : Query B) : preserves (uniqueOn m key) (execOne q).
Proof. apply preserves_roundTrip. auto. Qed.

Lemma preserves_countDocuments {I' B} (m' : Model I' B) p :
  preserves (uniqueOn m key) (countDocuments m' p).
Proof. apply preserves_roundTrip. auto. Qed.

Lemma uniqueOn_apart {I' A'} (m' : Model I' A') c d :
  apart m m' -> uniqueOn m key d -> uniqueOn m key (setColl m' c d).
Proof. unfold uniqueOn. intros H. now rewrite H. Qed.

Lemma uniqueOn_readsBack c d :
  readsBack m -> NoDup (map (fun x => key (fields x)) c) ->
  uniqueOn m key (setColl m c d).
Proof. unfold uniqueOn. intros H. now rewrite H. Qed.

(** Any write to another collection. *)
Lemma preserves_write_apart {I' A' B} (m' : Model I' A')
    (op : Database -> Result B * list (Doc A')) :
  apart m m' ->
  preserves (uniqueOn m key)
    (roundTrip (fun d => let '(r, c) := op d in (r, setColl m' c d))).
Proof.
  intros H. apply preserves_roundTrip. intros d Hd.
  destruct (op d) as [r c]. simpl. now apply uniqueOn_apart.
Qed.

Lemma preserves_deleteMany_apart {I' A'} (m' : Model I' A') p :
  apart m m' -> preserves (uniqueOn m key) (deleteMany m' p).
Proof.
  intros H. apply preserves_roundTrip. intros d Hd. now apply uniqueOn_apart.
Qed.

Lemma preserves_deleteOne_apart {I' A'} (m' : Model I' A') p :
  apart m m' -> preserves (uniqueOn m key) (deleteOne m' p).
Proof.
  intros H. apply preserves_roundTrip. intros d Hd. now apply uniqueOn_apart.
Qed.

Lemma preserves_updateOne_apart {I' A'} (m' : Model I' A') p f :
  apart m m' -> preserves (uniqueOn m key) (updateOne m' p f).
Proof.
  intros H. apply preserves_roundTrip. intros d Hd. now apply uniqueOn_apart.
Qed.

Lemma preserves_create_apart {I' A'} (m' : Model I' A') input :
  apart m m' -> preserves (uniqueOn m key) (create m' input).
Proof.
  intros H. unfold create.
  apply preserves_bind; [now apply preserves_pure | intros n].
  apply preserves_bind; [now apply preserves_pure | intros oid].
  destruct (castInput m' input); [now apply preserves_pure|].
  apply preserves_roundTrip. intros d Hd.
  destruct (violated (indexes m') a (coll m' d)); simpl;
    [exact Hd | now apply uniqueOn_apart].
Qed.

Lemma preserves_insertMany_apart {I' A'} (m' : Model I' A') inputs :
  apart m m' -> preserves (uniqueOn m key) (insertMany m' inputs).
Proof.
  intros H. unfold insertMany.
  apply preserves_bind; [now apply preserves_pure | intros n].
  apply preserves_bind; [now apply preserves_pure | intros oid].
  destruct (castAll (castInput m') inputs) as [e|[|a l]];
    [now apply preserves_pure | now apply preserves_pure |].
  now apply preserves_write_apart.
Qed.

(** Writes to the collection itself. *)
Lemma preserves_deleteMany_same p :
  readsBack m -> preserves (uniqueOn m key) (deleteMany m p).
Proof.
  intros H. apply preserves_roundTrip. intros d Hd. simpl.
  apply uniqueOn_readsBack; [exact H|].
  now apply (NoDup_map_filter (fun x => key (fields x))).
Qed.

Lemma preserves_deleteOne_same p :
  readsBack m -> preserves (uniqueOn m key) (deleteOne m p).
Proof.
  intros H. apply preserves_roundTrip. intros d Hd. simpl.
  apply uniqueOn_readsBack; [exact H|].
  now apply (NoDup_map_removeFirst (fun x => key (fields x))).
Qed.

Lemma preserves_updateOne_same p f :
  readsBack m -> (forall a, key (f a) = key a) ->
  preserves (uniqueOn m key) (updateOne m p f).
Proof.
  intros H Hf. apply preserves_roundTrip. intros d Hd. simpl.
  apply uniqueOn_readsBack; [exact H|].
  rewrite (map_updateFirst (fun x => key (fields x))); [exact Hd|].
  intros x. simpl. apply Hf.
Qed.

Lemma snoc_unique (ixs : list (string * (A -> A -> bool))) name same a oid c :
  In (name, same) ixs -> (forall x y, key x = key y -> same x y = true) ->
  violated ixs a c = None ->
  NoDup (map (fun x => key (fields x)) c) ->
  NoDup (map (fun x => key (fields x)) (c ++ [ {| _id := oid; fields := a |} ])).
Proof.
  intros Hin Hsame V Hd.
  apply (NoDup_map_snoc (fun x => key (fields x))); [exact Hd|].
  intros y Hy E. simpl in E.
  pose proof (violated_None _ _ _ _ _ V Hin y Hy) as F.
  rewrite (Hsame a (fields y)) in F; [discriminate F | now symmetry].
Qed.

Lemma preserves_create_same input :
  readsBack m -> declared m key -> preserves (uniqueOn m key) (create m input).
Proof.
  intros H (name & same & Hin & Hsame). unfold create.
  apply preserves_bind; [now apply preserves_pure | intros n].
  apply preserves_bind; [now apply preserves_pure | intros oid].
  destruct (castInput m input); [now apply preserves_pure|].
  apply preserves_roundTrip. intros d Hd.
  destruct (violated (indexes m) a (coll m d)) eqn:V; simpl; [exact Hd|].
  apply uniqueOn_readsBack; [exact H|].
  now apply (snoc_unique (indexes m) name same).
Qed.

Lemma insertOrdered_unique (ixs : list (string * (A -> A -> bool))) name same oid :
  In (name, same) ixs -> (forall x y, key x = key y -> same x y = true) ->
  forall l n c,
    NoDup (map (fun x => key (fields x)) c) ->
    NoDup (map (fun x => key (fields x)) (snd (insertOrdered ixs oid n l c))).
Proof.
  intros Hin Hsame. induction l as [|a l IH]; intros n c Hd; simpl; [exact Hd|].
  destruct (violated ixs a c) eqn:V; simpl; [exact Hd|].
  specialize (IH (S n) (c ++ [ {| _id := oid n; fields := a |} ])
                 (snoc_unique ixs name same a (oid n) c Hin Hsame V Hd)).
  destruct (insertOrdered ixs oid (S n) l (c ++ [ {| _id := oid n; fields := a |} ]))
    as [[ds|e] c']; exact IH.
Qed.

Lemma preserves_insertMany_same inputs :
  readsBack m -> declared m key -> preserves (uniqueOn m key) (insertMany m inputs).
Proof.
  intros H (name & same & Hin & Hsame). unfold insertMany.
  apply preserves_bind; [now apply preserves_pure | intros n].
  apply preserves_bind; [now apply preserves_pure | intros oid].
  destruct (castAll (castInput m) inputs) as [e|l]; [now apply preserves_pure|].
  destruct l as [|a0 l0] eqn:El; [now apply preserves_pure|]. rewrite <- El. clear El.
  apply preserves_roundTrip. intros d Hd.
  pose proof (insertOrdered_unique (indexes m) name same oid Hin Hsame l n (coll m d) Hd)
    as U.
  destruct (insertOrdered (indexes m) oid n l (coll m d)) as [r c]. simpl in *.
  now apply uniqueOn_readsBack.
Qed.

End UniqueOn.

(** Proves that a key is that of a declared index, trying the model's
    indexes in turn. *)
Ltac declared_by pick :=
  eexists; eexists; split;
    [ simpl; pick; reflexivity
    | let a := fresh "a" in
      let b := fresh "b" in
      let E := fresh "E" in
      intros a b E; simpl;
      try (injection E as ? ?);
      repeat match goal with H : _ = _ |- _ => rewrite H; clear H end;
      rewrite ?String.eqb_refl, ?Z.eqb_refl; reflexivity ].

Ltac index_declared :=
  first [ solve [declared_by ltac:(left)] | solve [declared_by ltac:(right; left)] ].

Ltac apart_or l1 l2 :=
  first [ apply l1; intros ? ?; reflexivity | l2 ].

(** Walks down a query function, keeping one unique index. *)
Ltac keeps :=
  repeat match goal with
    | |- preserves _ (try_catch _ _) => apply preserves_try_catch
    | |- preserves _ (bind _ _) => apply preserves_bind; [| intros ?]
    | |- preserves _ (match ?x with _ => _ end) => destruct x
    | |- preserves _ (let _ := _ in _) => cbv zeta
    | |- preserves _ (exec _) => apply preserves_exec
    | |- preserves _ (execOne _) => apply preserves_execOne
    | |- preserves _ (countDocuments _ _) => apply preserves_countDocuments
    | |- preserves _ (deleteMany _ _) =>
        apart_or preserves_deleteMany_apart
          ltac:(apply preserves_deleteMany_same; intros ? ?; reflexivity)
    | |- preserves _ (deleteOne _ _) =>
        apart_or preserves_deleteOne_apart
          ltac:(apply preserves_deleteOne_same; intros ? ?; reflexivity)
    | |- preserves _ (updateOne _ _ _) =>
        apart_or preserves_updateOne_apart
          ltac:(apply preserves_updateOne_same;
                [intros ? ?; reflexivity | intros ?; reflexivity])
    | |- preserves _ (create _ _) =>
        apart_or preserves_create_apart
          ltac:(apply preserves_create_same; [intros ? ?; reflexivity | index_declared])
    | |- preserves _ (insertMany _ _) =>
        apart_or preserves_insertMany_apart
          ltac:(apply preserves_insertMany_same; [intros ? ?; reflexivity | index_declared])
    | |- preserves _ _ => solve [apply preserves_pure; intros ?; reflexivity]
    end.

Lemma uniqueIndexes_run {A} (c : Call A) (w : World) :
  uniqueIndexes (db w) -> uniqueIndexes (db (snd (run c w))).
Proof.
  unfold uniqueIndexes.
  intros (H1 & H2 & H3 & H4 & H5 & H6 & H7 & H8 & H9).
  assert (G : forall {I B K} (m : Model I B) (key : B -> K),
             preserves (uniqueOn m key) (run c) ->
             uniqueOn m key (db w) -> uniqueOn m key (db (snd (run c w)))).
  { intros I B K m key Hp. apply Hp. }
  repeat split;
    (apply G; [| assumption]);
    destruct c; cbn [run];
    unfold getUser, createUser, createGuestUser, saveChat, deleteChatById,
      getChatsByUserId, getChatById, saveMessages, getMessagesByChatId, voteMessage,
      getVotesByChatId, saveDocument, getDocumentsById, getDocumentById,
      deleteDocumentsByIdAfterTimestamp, saveSuggestions, getSuggestionsByDocumentId,
      getMessageById, deleteMessagesByChatIdAfterTimestamp, updateChatVisiblityById,
      getMessageCountByUserId, createStreamId, getStreamIdsByChatId;
    keeps.
Qed.

Lemma uniqueIndexes_emptyDb : uniqueIndexes emptyDb.
Proof. unfold uniqueIndexes, uniqueOn. simpl. repeat split; constructor. Qed.

Lemma reachable_uniqueIndexes (d : Database) : reachable d -> uniqueIndexes d.
Proof.
  induction 1 as [|A c w _ IH]; [apply uniqueIndexes_emptyDb|].
  now apply uniqueIndexes_run.
Qed.

Lemma reachable_chatIdsUnique (d : Database) : reachable d -> chatIdsUnique d.
Proof. intros H. apply reachable_uniqueIndexes in H. apply H. Qed.

Lemma reachable_voteKeysUnique (d : Database) : reachable d -> voteKeysUnique d.
Proof. intros H. apply reachable_uniqueIndexes in H. apply H. Qed.

(** ** Voting where the message has no vote under another chat *)

Section UpdateFirst.
Context {A K : Type} (key : A -> K) (k : K) (p : A -> bool) (g : A -> A).
Hypothesis p_key : forall x, p x = true <-> key x = k.
Hypothesis g_key : forall x, key (g x) = key x.

Lemma filter_none_of_key (l : list A) :
  ~ In k (map key l) -> filter p l = [].
Proof.
  induction l as [|x l IH]; simpl; [reflexivity|].
  intros Hn. destruct (p x) eqn:Px.
  - exfalso. apply Hn. left. now apply p_key.
  - apply IH. tauto.
Qed.

(** With a unique key, updating the first match yields the only match. *)
Lemma filter_updateFirst (l : list A) :
  NoDup (map key l) -> existsb p l = true ->
  exists x, In x l /\ p x = true /\ filter p (updateFirst p g l) = [g x].
Proof.
  induction l as [|y l IH]; simpl; [discriminate|].
  intros Hd He. inversion Hd as [|? ? Hn Hd']; subst.
  destruct (p y) eqn:Py.
  - exists y. split; [now left|]. split; [exact Py|].
    simpl. assert (Pg : p (g y) = true).
    { apply p_key. rewrite g_key. now apply p_key. }
    rewrite Pg. f_equal. apply filter_none_of_key.
    apply p_key in Py. now rewrite <- Py.
  - simpl in He. destruct (IH Hd' He) as (x & Hin & Px & F).
    exists x. split; [now right|]. split; [exact Px|].
    simpl. now rewrite Py.
Qed.

Lemma In_updateFirst (l : list A) (y : A) :
  In y (updateFirst p g l) -> In y l \/ exists x, In x l /\ y = g x.
Proof.
  induction l as [|x l IH]; simpl; [tauto|].
  destruct (p x); simpl.
  - intros [<-|H]; [right; eauto | left; tauto].
  - intros [<-|H]; [left; tauto|].
    destruct (IH H) as [?|(z & ? & ?)]; [left; tauto | right; eauto].
Qed.

End UpdateFirst.

Lemma filter_nil_of {A} (q : A -> bool) (l : list A) :
  (forall x, In x l -> q x = false) -> filter q l = [].
Proof.
  induction l as [|x l IH]; simpl; [reflexivity|].
  intros H. rewrite (H x) by now left. apply IH. intros y Hy. apply H. now right.
Qed.

Lemma updateOne_Ok {I A} (m : Model I A) p f w n w' :
  updateOne m p f w = (Ok n, w') ->
  db w' = setColl m (updateFirst p (onFields f) (coll m (db w))) (db w).
Proof.
  unfold updateOne. intros H. apply roundTrip_Ok in H.
  destruct H as (H & _). inversion H. auto.
Qed.

Lemma preserves_voteMessage chatId messageId type :
  preserves (uniqueOn Vote (fun v => (vote_chatId v, vote_messageId v)))
            (voteMessage chatId messageId type).
Proof. unfold voteMessage. keeps. Qed.

(** One call: where the votes on the message, if any, are under the chat,
    a call that returns leaves exactly one vote for the pair, carrying the
    call's type. *)
Lemma voteMessage_once chatId messageId type w r w' :
  voteKeysUnique (db w) -> votedUnder chatId messageId (db w) ->
  voteMessage chatId messageId type w = (Ok r, w') ->
  voteKeysUnique (db w') /\ votedUnder chatId messageId (db w') /\
  exists v, votesFor chatId messageId (db w') = [v] /\
            vote_isUpvoted (fields v) = isUp type.
Proof.
  intros U S H. split.
  { pose proof (preserves_voteMessage chatId messageId type w U) as P.
    rewrite H in P. exact P. }
  unfold voteMessage in H. peel H. peel H.
  apply execOne_find_Ok in Hstep. destruct Hstep as (F & D0). simpl in F.
  set (q := fun v : Doc IVote =>
              (vote_chatId (fields v) =? chatId) && (vote_messageId (fields v) =? messageId)).
  set (p := fun v : Doc IVote =>
              (vote_messageId (fields v) =? messageId) && (vote_chatId (fields v) =? chatId)).
  assert (Q : forall v, q v = p v) by (intros v; apply andb_comm).
  unfold votesFor. fold q. rewrite (filter_ext q p Q).
  destruct a as [e|].
  - peel H. peel H. subst w'.
    apply updateOne_Ok in Hstep. rewrite Hstep, D0. simpl. fold p.
    symmetry in F. apply find_some in F. destruct F as (He & Me).
    apply String.eqb_eq in Me.
    assert (Pk : forall x, p x = true <->
                 (vote_chatId (fields x), vote_messageId (fields x)) = (chatId, messageId)).
    { intros x. unfold p. rewrite andb_true_iff, !String.eqb_eq.
      split; [intros (-> & ->); reflexivity | intros E; inversion E; auto]. }
    set (g := onFields (fun v => {| vote_chatId := vote_chatId v;
                                    vote_messageId := vote_messageId v;
                                    vote_isUpvoted := isUp type |})).
    split.
    + intros v Hv Mv.
      apply (In_updateFirst p g) in Hv. destruct Hv as [Hv|(x & Hx & ->)].
      * now apply S.
      * simpl in *. now apply S.
    + destruct (filter_updateFirst
                  (fun x => (vote_chatId (fields x), vote_messageId (fields x)))
                  (chatId, messageId) p g Pk (fun _ => eq_refl) (votes (db w)) U)
        as (x & _ & _ & Fx).
      { apply existsb_exists. exists e. split; [exact He|].
        apply Pk. now rewrite (S e He Me), Me. }
      exists (g x). split; [exact Fx | reflexivity].
  - peel H. peel H. subst w'.
    apply create_Ok in Hstep. destruct Hstep as (C & _ & _ & D).
    simpl in C. apply validated_inr in C.
    rewrite D, D0. simpl.
    assert (Pa : p a = true).
    { unfold p. rewrite <- C. simpl. now rewrite !String.eqb_refl. }
    split.
    + intros v Hv Mv. apply in_app_or in Hv. destruct Hv as [Hv|[<-|[]]].
      * now apply S.
      * now rewrite <- C.
    + exists a. rewrite filter_app. simpl. rewrite Pa.
      rewrite filter_nil_of.
      * split; [reflexivity | now rewrite <- C].
      * intros x Hx. unfold p.
        symmetry in F. rewrite (find_none _ _ F x Hx). reflexivity.
Qed.

(** The claim of C5 where it holds: two calls that return, on a store
    whose votes on the message are under the chat. *)
Lemma voteMessage_twice_same_chat chatId messageId t1 t2 w r1 w1 w1' r2 w2 :
  voteKeysUnique (db w) -> votedUnder chatId messageId (db w) ->
  voteMessage chatId messageId t1 w = (Ok r1, w1) ->
  db w1' = db w1 ->
  voteMessage chatId messageId t2 w1' = (Ok r2, w2) ->
  exists v, votesFor chatId messageId (db w2) = [v] /\
            vote_isUpvoted (fields v) = isUp t2.
Proof.
  intros U S H1 E H2.
  destruct (voteMessage_once _ _ _ _ _ _ U S H1) as (U1 & S1 & _).
  rewrite <- E in U1, S1.
  destruct (voteMessage_once _ _ _ _ _ _ U1 S1 H2) as (_ & _ & V).
  exact V.
Qed.

(** * Further properties of the query layer *)

(** ** Sorting *)

Section SortSpec.
Context {A : Type} (le : A -> A -> bool).

Lemma insertSorted_perm (x : A) (l : list A) :
  Permutation (insertSorted le x l) (x :: l).
Proof.
  induction l as [|y l IH]; simpl; [reflexivity|].
  destruct (le x y); [reflexivity|].
  rewrite IH. apply perm_swap.
Qed.

Lemma sortBy_perm (l : list A) : Permutation (sortBy le l) l.
Proof.
  induction l as [|x l IH]; simpl; [reflexivity|].
  rewrite insertSorted_perm. now constructor.
Qed.

Lemma In_sortBy (x : A) (l : list A) : In x (sortBy le l) <-> In x l.
Proof.
  split; apply Permutation_in; [apply sortBy_perm | symmetry; apply sortBy_perm].
Qed.

Hypothesis le_total : forall a b, le a b = true \/ le b a = true.
Hypothesis le_trans : forall a b c, le a b = true -> le b c = true -> le a c = true.

Lemma insertSorted_sorted (x : A) (l : list A) :
  StronglySorted (fun a b => le a b = true) l ->
  StronglySorted (fun a b => le a b = true) (insertSorted le x l).
Proof.
  induction l as [|y l IH]; simpl; intros Hs.
  - constructor; constructor.
  - inversion Hs as [|? ? Hs' Hy]; subst.
    destruct (le x y) eqn:Lxy.
    + constructor; [exact Hs|].
      constructor; [exact Lxy|].
      rewrite Forall_forall in *. intros z Hz. eapply le_trans; eauto.
    + constructor; [now apply IH|].
      rewrite Forall_forall in *. intros z Hz.
      apply (Permutation_in _ (insertSorted_perm x l)) in Hz.
      destruct Hz as [<-|Hz]; [|now apply Hy].
      destruct (le_total x y) as [E|E]; [congruence | exact E].
Qed.

Lemma sortBy_sorted (l : list A) :
  StronglySorted (fun a b => le a b = true) (sortBy le l).
Proof.
  induction l as [|x l IH]; simpl; [constructor|].
  now apply insertSorted_sorted.
Qed.

End SortSpec.

Lemma firstn_subset {A} (n : nat) (l : list A) (x : A) :
  In x (firstn n l) -> In x l.
Proof.
  revert n. induction l as [|y l IH]; intros [|n]; simpl; try tauto.
  intros [->|H]; [now left | right; eauto].
Qed.

Lemma StronglySorted_firstn {A} (R : A -> A -> Prop) (n : nat) (l : list A) :
  StronglySorted R l -> StronglySorted R (firstn n l).
Proof.
  revert n. induction l as [|x l IH]; intros [|n] Hs; simpl; try constructor.
  - inversion Hs; subst. now apply IH.
  - inversion Hs as [|? ? _ Hx]; subst.
    rewrite Forall_forall in *. intros z Hz. apply Hx.
    now apply (firstn_subset n l).
Qed.

Lemma StronglySorted_weaken {A} (R R' : A -> A -> Prop) (l : list A) :
  (forall a b, R a b -> R' a b) -> StronglySorted R l -> StronglySorted R' l.
Proof.
  intros H. induction 1 as [|x l _ IH Hx]; constructor; [exact IH|].
  rewrite Forall_forall in *. auto.
Qed.

(** ** Reading leaves the store alone *)

Section Reads.
Context (P : Database -> Prop).

Lemma reads_exec {B} (q : Query B) : preserves P (exec q).
Proof. apply preserves_roundTrip. auto. Qed.

Lemma reads_execOne {B} (q : Query B) : preserves P (execOne q).
Proof. apply preserves_roundTrip. auto. Qed.

Lemma reads_countDocuments {I B} (m : Model I B) p : preserves P (countDocuments m p).
Proof. apply preserves_roundTrip. auto. Qed.

End Reads.

Ltac reads :=
  repeat match goal with
    | |- preserves _ (try_catch _ _) => apply preserves_try_catch
    | |- preserves _ (bind _ _) => apply preserves_bind; [| intros ?]
    | |- preserves _ (match ?x with _ => _ end) => destruct x
    | |- preserves _ (let _ := _ in _) => cbv zeta
    | |- preserves _ (exec _) => apply reads_exec
    | |- preserves _ (execOne _) => apply reads_execOne
    | |- preserves _ (countDocuments _ _) => apply reads_countDocuments
    | |- preserves _ _ => solve [apply preserves_pure; intros ?; reflexivity]
    end.

(** X1. The eleven [get...] functions never write: whether the call
    returns or raises, the store is what it was. *)
Theorem queries_leave_the_store {A : Type} (c : Call A) (w : World) :
  isQuery c = true -> db (snd (run c w)) = db w.
Proof.
  intros Q.
  assert (G : preserves (fun d => d = db w) (run c)).
  { destruct c; try discriminate Q; cbn [run];
      unfold getUser, getChatsByUserId, getChatById, getMessagesByChatId,
        getVotesByChatId, getDocumentsById, getDocumentById,
        getSuggestionsByDocumentId, getMessageById, getMessageCountByUserId,
        getStreamIdsByChatId;
      reads. }
  exact (G w eq_refl).
Qed.

Lemma queries_leave_the_store_witness :
  isQuery (GetChatsByUserId "u1" 2 (Some "no-such-chat") None) = true /\
  db (snd (run (GetChatsByUserId "u1" 2 (Some "no-such-chat") None) (world sampleDb [])))
  = sampleDb.
Proof.
  split; [reflexivity|].
  exact (queries_leave_the_store
           (GetChatsByUserId "u1" 2 (Some "no-such-chat") None) (world sampleDb [])
           eq_refl).
Defined.

(** ** Looking up by a unique key *)

Section UniqueKey.
Context {A K : Type} (key : A -> K) (k : K) (p : A -> bool).
Hypothesis p_key : forall x, p x = true <-> key x = k.

Lemma filter_unique_key (l : list A) :
  NoDup (map key l) -> length (filter p l) <= 1.
Proof.
  induction l as [|x l IH]; simpl; [lia|].
  intros Hd. inversion Hd as [|? ? Hn Hd']; subst.
  destruct (p x) eqn:Px; [|now apply IH].
  simpl. rewrite (filter_none_of_key key k p p_key); [simpl; lia|].
  apply p_key in Px. now rewrite <- Px.
Qed.

End UniqueKey.

Lemma getUser_Ok email w r w' :
  getUser email w = (Ok r, w') ->
  r = filter (fun u => user_email (fields u) =? email) (users (db w)).
Proof.
  unfold getUser. intros H. peel H. apply exec_Ok in H. tauto.
Qed.

(** X2. When [getUser] returns, the result holds exactly the stored users
    with that email, and at most one where the unique index on [email]
    holds. *)
Theorem getUser_result (email : string) (w : World) (r : list (Doc IUser)) (w' : World) :
  getUser email w = (Ok r, w') ->
  (forall u, In u r <-> In u (users (db w)) /\ user_email (fields u) = email) /\
  (uniqueOn User user_email (db w) -> length r <= 1).
Proof.
  intros H. apply getUser_Ok in H. subst r. split.
  - intros u. rewrite filter_In, String.eqb_eq. reflexivity.
  - intros U.
    apply (filter_unique_key (fun u : Doc IUser => user_email (fields u)) email); [|exact U].
    intros x. apply String.eqb_eq.
Qed.

Lemma getUser_result_witness :
  let out := getUser "ann@example.org" (world sampleDb []) in
  fst out = Ok (users sampleDb) /\
  (forall u, In u (users sampleDb) <->
             In u (users sampleDb) /\ user_email (fields u) = "ann@example.org") /\
  (uniqueOn User user_email sampleDb -> length (users sampleDb) <= 1).
Proof.
  intros out. split; [reflexivity|].
  apply (getUser_result "ann@example.org" (world sampleDb []) (users sampleDb) (snd out)).
  reflexivity.
Defined.

(** ** Creating: rejections and round trips *)

Lemma violated_hit {A} (ixs : list (string * (A -> A -> bool))) a (c : list (Doc A)) ix :
  In ix ixs -> existsb (fun d => snd ix a (fields d)) c = true ->
  violated ixs a c <> None.
Proof.
  unfold violated. intros Hin Hex.
  destruct (List.find _ ixs) as [x|] eqn:F; [discriminate|].
  pose proof (find_none _ _ F _ Hin) as E. simpl in E. congruence.
Qed.

(** A [create] that validation or a unique index stands against raises
    and writes nothing. *)
Lemma create_rejected {I A} (m : Model I A) (input : I) (w : World) :
  (forall a, castInput m input = inr a -> violated (indexes m) a (coll m (db w)) <> None) ->
  (exists e, fst (create m input w) = Throw e) /\ db (snd (create m input w)) = db w.
Proof.
  intros H. unfold create, bind, draw, asks. simpl.
  destruct (castInput m input) as [e|a]; [simpl; eauto|].
  specialize (H a eq_refl). unfold roundTrip. simpl.
  destruct (violated (indexes m) a (coll m (db w))) as [ix|] eqn:V; [|congruence].
  destruct (faults w) as [|[|] fs]; simpl; eauto.
Qed.

Lemma try_catch_raises {A} (body : M A) code msg w :
  (exists e, fst (body w) = Throw e) ->
  fst (try_catch body (fun _ => newChatSDKError code msg) w) =
    Throw (EChatSDK {| kind := code; message := msg |}) /\
  snd (try_catch body (fun _ => newChatSDKError code msg) w) = snd (body w).
Proof.
  intros (e & H). unfold try_catch. destruct (body w) as [[a|x] w1]; simpl in *;
    [discriminate H | auto].
Qed.

Lemma find_app_none {A} (p : A -> bool) (l l' : list A) :
  List.find p l = None -> List.find p (l ++ l') = List.find p l'.
Proof.
  induction l as [|x l IH]; simpl; [reflexivity|].
  destruct (p x); [discriminate | exact IH].
Qed.

Lemma saveChat_Ok id userId title visibility w c w' :
  saveChat id userId title visibility w = (Ok c, w') ->
  fields c = {| chat_id := id; chat_createdAt := clock w; chat_userId := userId;
                chat_title := title; chat_visibility := visibility |} /\
  List.find (fun x => chat_id (fields x) =? id) (chats (db w)) = None /\
  db w' = setColl Chat (chats (db w) ++ [c]) (db w).
Proof.
  unfold saveChat. intros H. peel H. peel H.
  unfold Date_now in Hstep. inversion Hstep; subst; clear Hstep.
  apply create_Ok in H. destruct H as (C & _ & V & D).
  simpl in C. apply validated_inr in C.
  split; [now symmetry|]. split; [|exact D].
  destruct (List.find _ (chats (db w0))) as [x|] eqn:F; [|reflexivity].
  apply find_some in F. destruct F as (Hx & Ex).
  pose proof (violated_None (indexes Chat) (fields c) (chats (db w0)) "id_1"
                (fun a b => chat_id a =? chat_id b) V (or_introl eq_refl) x Hx) as N.
  simpl in N. rewrite <- C in N. simpl in N.
  apply String.eqb_eq in Ex. rewrite Ex, String.eqb_refl in N. discriminate N.
Qed.

(** X3. A chat that [saveChat] returned is the one [getChatById] returns
    for its id afterwards: it carries the given id, owner, title and
    visibility, and the time of the call as [createdAt]. *)
Theorem saveChat_then_getChatById
    (id userId title : string) (visibility : VisibilityType)
    (w : World) (c : Doc IChat) (w1 w2 : World) (r : option (Doc IChat)) (w3 : World) :
  saveChat id userId title visibility w = (Ok c, w1) ->
  db w2 = db w1 ->
  getChatById id w2 = (Ok r, w3) ->
  r = Some c /\
  fields c = {| chat_id := id; chat_createdAt := clock w; chat_userId := userId;
                chat_title := title; chat_visibility := visibility |}.
Proof.
  intros H1 E H2.
  apply saveChat_Ok in H1. destruct H1 as (F & N & D).
  split; [|exact F].
  unfold getChatById in H2. peel H2. apply execOne_find_Ok in H2.
  destruct H2 as (-> & _). rewrite E, D. simpl.
  rewrite (find_app_none _ _ _ N). simpl.
  rewrite F. simpl. now rewrite String.eqb_refl.
Qed.

Lemma saveChat_then_getChatById_witness :
  let w := world sampleDb [] in
  let saved := saveChat "c9" "u1" "plans" public w in
  let got := getChatById "c9" (snd saved) in
  exists c,
    fst saved = Ok c /\ fst got = Ok (Some c) /\
    fields c = {| chat_id := "c9"; chat_createdAt := clock w; chat_userId := "u1";
                  chat_title := "plans"; chat_visibility := public |}.
Proof.
  intros w saved got.
  exists {| _id := newObjectId sampleEnv 0;
            fields := {| chat_id := "c9"; chat_createdAt := clock w; chat_userId := "u1";
                         chat_title := "plans"; chat_visibility := public |} |}.
  split; [reflexivity|].
  destruct (saveChat_then_getChatById "c9" "u1" "plans" public w
              {| _id := newObjectId sampleEnv 0;
                 fields := {| chat_id := "c9"; chat_createdAt := clock w;
                              chat_userId := "u1"; chat_title := "plans";
                              chat_visibility := public |} |}
              (snd saved) (snd saved)
              (Some {| _id := newObjectId sampleEnv 0;
                       fields := {| chat_id := "c9"; chat_createdAt := clock w;
                                    chat_userId := "u1"; chat_title := "plans";
                                    chat_visibility := public |} |})
              (snd got) eq_refl eq_refl eq_refl) as (H1 & H2).
  split; [reflexivity | exact H2].
Defined.

(** X4. [saveChat] raises [bad_request:database] and writes nothing when a
    chat with the id is already stored, or when the id, the title or the
    owner is the empty string. *)
Theorem saveChat_rejected
    (id userId title : string) (visibility : VisibilityType) (w : World) :
  (exists c, In c (chats (db w)) /\ chat_id (fields c) = id) \/
  id = "" \/ title = "" \/ userId = "" ->
  fst (saveChat id userId title visibility w) =
    Throw (EChatSDK {| kind := "bad_request:database"; message := "Failed to save chat" |}) /\
  db (snd (saveChat id userId title visibility w)) = db w.
Proof.
  intros H. unfold saveChat.
  set (input := {| chat_id := id; chat_createdAt := clock w; chat_userId := userId;
                   chat_title := title; chat_visibility := visibility |}).
  assert (R : (exists e, fst (create Chat input w) = Throw e) /\
              db (snd (create Chat input w)) = db w).
  { apply create_rejected. intros a Ca. simpl in Ca.
    destruct H as [(c & Hc & Ec) | H].
    - apply validated_inr in Ca. subst a.
      apply (violated_hit _ _ _ ("id_1", fun a b => chat_id a =? chat_id b));
        [now left|].
      apply existsb_exists. exists c. split; [exact Hc|].
      simpl. rewrite Ec. apply String.eqb_refl.
    - exfalso. unfold validated, requiredString in Ca. simpl in Ca.
      destruct H as [ -> | [ -> | -> ] ]; simpl in Ca;
        repeat match type of Ca with
               | context [if ?s =? "" then _ else _] => destruct (s =? "")
               end; discriminate Ca. }
  destruct R as (Rt & Rd).
  destruct (try_catch_raises
              (now <- Date_now ;;
               create Chat {| chat_id := id; chat_createdAt := now; chat_userId := userId;
                              chat_title := title; chat_visibility := visibility |})
              "bad_request:database" "Failed to save chat" w Rt) as (T & S).
  split; [exact T|]. rewrite S. exact Rd.
Qed.

Lemma saveChat_rejected_witness :
  ((exists c, In c (chats sampleDb) /\ chat_id (fields c) = "c2") \/
   "c2" = "" \/ "again" = "" \/ "u2" = "") /\
  fst (saveChat "c2" "u2" "again" private (world sampleDb [])) =
    Throw (EChatSDK {| kind := "bad_request:database"; message := "Failed to save chat" |}) /\
  db (snd (saveChat "c2" "u2" "again" private (world sampleDb []))) = sampleDb.
Proof.
  assert (H : (exists c, In c (chats sampleDb) /\ chat_id (fields c) = "c2") \/
              "c2" = "" \/ "again" = "" \/ "u2" = "").
  { left. exists (chatOf "b2" "c2" 200 "u1"). split; [simpl; auto | reflexivity]. }
  split; [exact H|].
  exact (saveChat_rejected "c2" "u2" "again" private (world sampleDb []) H).
Defined.

Lemma bind_raises {A B} (m : M A) (k : A -> M B) w :
  (exists e, fst (m w) = Throw e) ->
  (exists e, fst (bind m k w) = Throw e) /\ snd (bind m k w) = snd (m w).
Proof.
  intros (e & H). unfold bind. destruct (m w) as [[a|x] w1]; simpl in *;
    [discriminate H | eauto].
Qed.

(** X5. [saveDocument] raises [bad_request:database] and writes nothing
    when a document with the id is already stored: the schema's unique
    index on [Document.id] admits one version per id. *)
Theorem saveDocument_second_version_rejected
    (id title : string) (kind_ : ArtifactKind) (content userId : string) (w : World) :
  (exists d, In d (documents (db w)) /\ doc_id (fields d) = id) ->
  fst (saveDocument id title kind_ content userId w) =
    Throw (EChatSDK {| kind := "bad_request:database";
                       message := "Failed to save document" |}) /\
  db (snd (saveDocument id title kind_ content userId w)) = db w.
Proof.
  intros (d & Hd & Ed). unfold saveDocument.
  set (input := {| doc_id := id; doc_title := title; doc_kind := kind_;
                   doc_content := Some content; doc_userId := userId;
                   doc_createdAt := clock w |}).
  assert (R : (exists e, fst (create Document input w) = Throw e) /\
              db (snd (create Document input w)) = db w).
  { apply create_rejected. intros a Ca. simpl in Ca.
    apply validated_inr in Ca. subst a.
    apply (violated_hit _ _ _ ("id_1", fun a b => doc_id a =? doc_id b));
      [now left|].
    apply existsb_exists. exists d. split; [exact Hd|].
    simpl. rewrite Ed. apply String.eqb_refl. }
  destruct R as (Rt & Rd).
  destruct (try_catch_raises
              (now <- Date_now ;;
               create Document {| doc_id := id; doc_title := title; doc_kind := kind_;
                                  doc_content := Some content; doc_userId := userId;
                                  doc_createdAt := now |})
              "bad_request:database" "Failed to save document" w Rt) as (T & S).
  split; [exact T|]. rewrite S. exact Rd.
Qed.

Lemma saveDocument_second_version_rejected_witness :
  (exists d, In d (documents sampleDb) /\ doc_id (fields d) = "doc1") /\
  fst (saveDocument "doc1" "notes" text "second draft" "u1" (world sampleDb [])) =
    Throw (EChatSDK {| kind := "bad_request:database";
                       message := "Failed to save document" |}) /\
  db (snd (saveDocument "doc1" "notes" text "second draft" "u1" (world sampleDb [])))
  = sampleDb.
Proof.
  assert (H : exists d, In d (documents sampleDb) /\ doc_id (fields d) = "doc1").
  { eexists. split; [left; reflexivity | reflexivity]. }
  split; [exact H|].
  exact (saveDocument_second_version_rejected
           "doc1" "notes" text "second draft" "u1" (world sampleDb []) H).
Defined.

(** X6. A guest's email is ["guest-"] followed by the clock reading: where
    a user with that email is already stored (a guest created within the
    same millisecond), [createGuestUser] raises [bad_request:database] and
    writes nothing. *)
Theorem createGuestUser_same_millisecond (w : World) :
  (exists u, In u (users (db w)) /\
             user_email (fields u) = ("guest-" ++ numberToString (clock w))%string) ->
  fst (createGuestUser w) =
    Throw (EChatSDK {| kind := "bad_request:database";
                       message := "Failed to create guest user" |}) /\
  db (snd (createGuestUser w)) = db w.
Proof.
  intros (u & Hu & Eu).
  set (input := {| in_id := Some (generateUUID (env w) (draws w));
                   in_email := Some ("guest-" ++ numberToString (clock w))%string;
                   in_password :=
                     Some (generateHashedPassword (env w)
                             (generateUUID (env w) (S (draws w))) (S (S (draws w)))) |}).
  set (w3 := {| env := env w; db := db w; clock := clock w;
                draws := S (S (S (draws w))); faults := faults w;
                failures := failures w |}).
  assert (E : createGuestUser w =
              try_catch
                (newUser <- create User input ;;
                 ret [ [ ("id", user_id (fields newUser));
                         ("email", user_email (fields newUser)) ] ])
                (fun _ => newChatSDKError "bad_request:database"
                            "Failed to create guest user") w3)
    by reflexivity.
  rewrite E. clear E.
  assert (R : (exists e, fst (create User input w3) = Throw e) /\
              db (snd (create User input w3)) = db w3).
  { apply create_rejected. intros a Ca.
    apply (violated_hit _ _ _ ("email_1", fun a b => user_email a =? user_email b));
      [right; now left|].
    apply castUser_inr in Ca. destruct Ca as (_ & Ce & _). simpl in Ce.
    apply existsb_exists. exists u. split; [exact Hu|].
    simpl. inversion Ce as [Ce']. rewrite Eu. apply String.eqb_refl. }
  destruct R as (Rt & Rd).
  destruct (bind_raises (create User input)
              (fun newUser => ret [ [ ("id", user_id (fields newUser));
                                      ("email", user_email (fields newUser)) ] ])
              w3 Rt) as (Bt & Bs).
  destruct (try_catch_raises _ "bad_request:database" "Failed to create guest user" w3 Bt)
    as (T & S).
  split; [exact T|].
  etransitivity; [exact (f_equal db S)|]. rewrite Bs. exact Rd.
Qed.

Lemma createGuestUser_same_millisecond_witness :
  let first := createGuestUser (world sampleDb []) in
  let w := world (db (snd first)) [] in
  (exists u, In u (users (db w)) /\
             user_email (fields u) = ("guest-" ++ numberToString (clock w))%string) /\
  fst (createGuestUser w) =
    Throw (EChatSDK {| kind := "bad_request:database";
                       message := "Failed to create guest user" |}) /\
  db (snd (createGuestUser w)) = db w.
Proof.
  intros first w.
  assert (H : exists u, In u (users (db w)) /\
                        user_email (fields u) =
                        ("guest-" ++ numberToString (clock w))%string).
  { eexists. split; [right; left; reflexivity | reflexivity]. }
  split; [exact H|].
  exact (createGuestUser_same_millisecond w H).
Defined.

(** ** Messages *)

Lemma getMessagesByChatId_Ok id w r w' :
  getMessagesByChatId id w = (Ok r, w') ->
  r = sortBy (fun a b => (msg_createdAt (fields a) <=? msg_createdAt (fields b))%Z)
             (filter (fun m => msg_chatId (fields m) =? id) (messages (db w))).
Proof.
  unfold getMessagesByChatId. intros H. peel H. apply exec_Ok in H. tauto.
Qed.

(** X7. When [getMessagesByChatId] returns, the result holds exactly the
    stored messages of the chat, each as often as it is stored, oldest
    first. *)
Theorem getMessagesByChatId_result
    (id : string) (w : World) (r : list (Doc IDBMessage)) (w' : World) :
  getMessagesByChatId id w = (Ok r, w') ->
  Permutation r (filter (fun m => msg_chatId (fields m) =? id) (messages (db w))) /\
  StronglySorted msgOlder r.
Proof.
  intros H. apply getMessagesByChatId_Ok in H. subst r. split.
  - apply sortBy_perm.
  - pose proof (sortBy_sorted
                  (fun a b : Doc IDBMessage =>
                     (msg_createdAt (fields a) <=? msg_createdAt (fields b))%Z)) as S.
    eapply StronglySorted_weaken; [| apply S].
    + intros a b E. apply Z.leb_le in E. exact E.
    + intros a b. destruct (Z.leb_spec (msg_createdAt (fields a)) (msg_createdAt (fields b)));
        [now left | right; apply Z.leb_le; lia].
    + intros a b c E1 E2. apply Z.leb_le in E1, E2. apply Z.leb_le. lia.
Qed.

Lemma getMessagesByChatId_result_witness :
  let out := getMessagesByChatId "c1" (world sampleDb []) in
  fst out = Ok (messages sampleDb) /\
  Permutation (messages sampleDb)
    (filter (fun m => msg_chatId (fields m) =? "c1") (messages (db (world sampleDb [])))) /\
  StronglySorted msgOlder (messages sampleDb).
Proof.
  intros out. split; [reflexivity|].
  apply (getMessagesByChatId_result "c1" (world sampleDb []) (messages sampleDb) (snd out)).
  reflexivity.
Defined.

Lemma insertOrdered_Ok {A} (ixs : list (string * (A -> A -> bool))) oid :
  forall l n c ds c',
    insertOrdered ixs oid n l c = (Ok ds, c') ->
    c' = c ++ ds /\ map fields ds = l.
Proof.
  induction l as [|a l IH]; intros n c ds c' H; simpl in H.
  - inversion H; subst. now rewrite app_nil_r.
  - destruct (violated ixs a c); [discriminate H|].
    destruct (insertOrdered ixs oid (S n) l (c ++ [ {| _id := oid n; fields := a |} ]))
      as [[ds'|e] c''] eqn:R; [|discriminate H].
    inversion H; subst. apply IH in R. destruct R as (-> & <-).
    rewrite <- app_assoc. simpl. auto.
Qed.

Lemma castAll_inr {I A} (cast : I -> StoreError + A) (f : A -> I) :
  (forall i a, cast i = inr a -> f a = i) ->
  forall l l', castAll cast l = inr l' -> map f l' = l.
Proof.
  intros Hc. induction l as [|i l IH]; intros l' H; simpl in H.
  - inversion H. reflexivity.
  - destruct (cast i) as [e|a] eqn:Ci; [discriminate H|].
    destruct (castAll cast l) as [e|l''] eqn:Cl; [discriminate H|].
    inversion H; subst. simpl. now rewrite (Hc _ _ Ci), (IH _ eq_refl).
Qed.

Lemma castAll_inl {I A} (cast : I -> StoreError + A) (l : list I) (i : I) :
  In i l -> (exists e, cast i = inl e) -> exists e, castAll cast l = inl e.
Proof.
  induction l as [|j l IH]; simpl; [tauto|].
  intros [->|Hin] (e & Hi).
  - rewrite Hi. eauto.
  - destruct (cast j); [eauto|].
    destruct (IH Hin (ex_intro _ e Hi)) as (e' & ->). eauto.
Qed.

Lemma insertMany_Ok {A} (m : Model A A) (inputs : list A) w ds w' :
  readsBack m ->
  (forall i a, castInput m i = inr a -> a = i) ->
  insertMany m inputs w = (Ok ds, w') ->
  map fields ds = inputs /\ coll m (db w') = coll m (db w) ++ ds.
Proof.
  intros Hr Hc H. unfold insertMany in H. peel H. peel H.
  unfold drawMany in Hstep. inversion Hstep; subst; clear Hstep.
  unfold asks in Hstep0. inversion Hstep0; subst; clear Hstep0.
  destruct (castAll (castInput m) inputs) as [e|l] eqn:C; [discriminate H|].
  apply (castAll_inr _ (fun a => a) Hc) in C. rewrite map_id in C. subst l.
  destruct inputs as [|i inputs'] eqn:Ei.
  - peel H. subst ds w'. simpl. now rewrite app_nil_r.
  - rewrite <- Ei in *. clear Ei.
    apply roundTrip_Ok in H. destruct H as (H & _). simpl in H.
    destruct (insertOrdered (indexes m) _ _ inputs (coll m (db w))) as [r c] eqn:R.
    inversion H as [[Hr' Hd]]. subst r. apply insertOrdered_Ok in R. destruct R as (-> & F).
    rewrite Hr. auto.
Qed.

(** X8. After [saveMessages] returned, [getMessagesByChatId] returns every
    message that was handed in for the chat, and every message of the chat
    that was stored before. *)
Theorem saveMessages_then_getMessagesByChatId
    (messages_ : list IDBMessage) (id : string)
    (w : World) (ds : list (Doc IDBMessage)) (w1 w2 : World)
    (r : list (Doc IDBMessage)) (w3 : World) :
  saveMessages messages_ w = (Ok ds, w1) ->
  db w2 = db w1 ->
  getMessagesByChatId id w2 = (Ok r, w3) ->
  (forall m, In m messages_ -> msg_chatId m = id -> exists d, In d r /\ fields d = m) /\
  (forall d, In d (messages (db w)) -> msg_chatId (fields d) = id -> In d r).
Proof.
  intros H1 E H2.
  unfold saveMessages in H1. peel H1.
  apply insertMany_Ok in H1;
    [| intros c0 d0; reflexivity
     | intros i a C; simpl in C; apply validated_inr in C; now symmetry ].
  destruct H1 as (F & D).
  apply getMessagesByChatId_Ok in H2. subst r. simpl in D. rewrite E, D.
  split.
  - intros m Hm Em. rewrite <- F in Hm. apply in_map_iff in Hm.
    destruct Hm as (d & Fd & Hd). exists d. split; [|exact Fd].
    apply In_sortBy, filter_In. split; [apply in_or_app; now right|].
    rewrite Fd, Em. apply String.eqb_refl.
  - intros d Hd Ed. apply In_sortBy, filter_In. split; [apply in_or_app; now left|].
    rewrite Ed. apply String.eqb_refl.
Qed.

Lemma saveMessages_then_getMessagesByChatId_witness :
  let w := world sampleDb [] in
  let new := {| msg_id := "m3"; msg_chatId := "c1"; msg_role := "user";
                msg_parts := Some "[]"; msg_attachments := Some "[]";
                msg_createdAt := 1699999999000%Z |} in
  let saved := saveMessages [new] w in
  let got := getMessagesByChatId "c1" (snd saved) in
  fst got = Ok (messages sampleDb ++ [ {| _id := newObjectId sampleEnv 0; fields := new |} ]) /\
  (forall m, In m [new] -> msg_chatId m = "c1" ->
     exists d, In d (messages sampleDb ++ [ {| _id := newObjectId sampleEnv 0; fields := new |} ])
               /\ fields d = m).
Proof.
  intros w new saved got. split; [reflexivity|].
  apply (saveMessages_then_getMessagesByChatId [new] "c1" w
           [ {| _id := newObjectId sampleEnv 0; fields := new |} ]
           (snd saved) (snd saved)
           (messages sampleDb ++ [ {| _id := newObjectId sampleEnv 0; fields := new |} ])
           (snd got)); reflexivity.
Defined.

(** X9. [saveMessages] stores all or nothing where validation is concerned:
    when one of the messages has an empty [id], [chatId] or [role], or no
    [parts] or [attachments], the call raises [bad_request:database] and
    none of the messages is stored. *)
Theorem saveMessages_invalid_message (messages_ : list IDBMessage) (w : World) :
  (exists m, In m messages_ /\ invalidMessage m) ->
  fst (saveMessages messages_ w) =
    Throw (EChatSDK {| kind := "bad_request:database";
                       message := "Failed to save messages" |}) /\
  db (snd (saveMessages messages_ w)) = db w.
Proof.
  intros (m & Hm & Inv).
  assert (C : exists e, castAll (castInput Message) messages_ = inl e).
  { apply (castAll_inl _ _ m Hm). simpl. unfold validated, requiredString, requiredMixed.
    destruct m as [mid mchat mrole mparts matt mt]. unfold invalidMessage in Inv.
    simpl in *.
    destruct mparts as [parts|], matt as [att|];
      destruct Inv as [ -> | [ -> | [ -> | [ Inv | Inv ] ] ] ]; try discriminate Inv;
      simpl;
      repeat match goal with
             | |- context [if ?s =? "" then _ else _] => destruct (s =? ""); simpl
             end; eauto. }
  destruct C as (e & C).
  assert (R : (exists x, fst (insertMany Message messages_ w) = Throw x) /\
              db (snd (insertMany Message messages_ w)) = db w).
  { unfold insertMany, bind, drawMany, asks. cbn [fst snd]. rewrite C. simpl. eauto. }
  destruct R as (Rt & Rd). unfold saveMessages.
  destruct (try_catch_raises (insertMany Message messages_)
              "bad_request:database" "Failed to save messages" w Rt) as (T & S).
  split; [exact T|]. rewrite S. exact Rd.
Qed.

Lemma saveMessages_invalid_message_witness :
  let ok := {| msg_id := "m3"; msg_chatId := "c1"; msg_role := "user";
               msg_parts := Some "[]"; msg_attachments := Some "[]";
               msg_createdAt := 1699999999000%Z |} in
  let bad := {| msg_id := "m4"; msg_chatId := "c1"; msg_role := "assistant";
                msg_parts := None; msg_attachments := Some "[]";
                msg_createdAt := 1699999999500%Z |} in
  (exists m, In m [ok; bad] /\ invalidMessage m) /\
  fst (saveMessages [ok; bad] (world sampleDb [])) =
    Throw (EChatSDK {| kind := "bad_request:database";
                       message := "Failed to save messages" |}) /\
  db (snd (saveMessages [ok; bad] (world sampleDb []))) = sampleDb.
Proof.
  intros ok bad.
  assert (H : exists m, In m [ok; bad] /\ invalidMessage m).
  { exists bad. split; [right; now left|].
    unfold invalidMessage. simpl. tauto. }
  split; [exact H|].
  exact (saveMessages_invalid_message [ok; bad] (world sampleDb []) H).
Defined.

Lemma isIn_In (v : string) (values : list string) : isIn v values = true <-> In v values.
Proof.
  unfold isIn. rewrite existsb_exists. split.
  - intros (x & Hx & E). apply String.eqb_eq in E. now subst.
  - intros H. exists v. split; [exact H | apply String.eqb_refl].
Qed.

Lemma deleteMessagesByChatIdAfterTimestamp_Ok chatId timestamp w r w' :
  deleteMessagesByChatIdAfterTimestamp chatId timestamp w = (Ok r, w') ->
  let ids := map (fun m => _id m) (messagesFrom chatId timestamp (db w)) in
  (messagesFrom chatId timestamp (db w) = [] /\ r = None /\ db w' = db w) \/
  (messagesFrom chatId timestamp (db w) <> [] /\ r <> None /\
   db w' =
   setColl Message
     (filter (fun m => negb ((msg_chatId (fields m) =? chatId) && isIn (_id m) ids))
             (messages (db w)))
     (setColl Vote
        (filter (fun v => negb ((vote_chatId (fields v) =? chatId)
                                && isIn (vote_messageId (fields v)) ids))
                (votes (db w)))
        (db w))).
Proof.
  intros H ids. unfold deleteMessagesByChatIdAfterTimestamp in H.
  peel H. peel H. apply exec_Ok in Hstep. destruct Hstep as (R & D).
  unfold answer in R. simpl in R. fold (messagesFrom chatId timestamp (db w)) in R.
  subst a. cbv zeta in H. fold ids in H.
  destruct (0 <? length ids)%nat eqn:L.
  - right. peel H. peel H. peel H. subst w'.
    apply deleteMany_Ok in Hstep. destruct Hstep as (D1 & _).
    apply deleteMany_Ok in Hstep0. destruct Hstep0 as (D2 & _).
    split; [| split; [rewrite <- H; discriminate|] ].
    + intros E. unfold ids in L. rewrite E in L. discriminate L.
    + rewrite D2, D1, D. reflexivity.
  - left. peel H. subst w'. split; [| split; [now symmetry | exact D] ].
    unfold ids in L. rewrite length_map in L.
    destruct (messagesFrom chatId timestamp (db w)); [reflexivity | discriminate L].
Qed.

Lemma NoDup_map_injective {A K} (key : A -> K) (l : list A) (x y : A) :
  NoDup (map key l) -> In x l -> In y l -> key x = key y -> x = y.
Proof.
  induction l as [|z l IH]; simpl; [tauto|].
  intros Hd Hx Hy E. inversion Hd as [|? ? Hn Hd']; subst.
  destruct Hx as [->|Hx], Hy as [->|Hy]; auto.
  - exfalso. apply Hn. rewrite E. now apply in_map.
  - exfalso. apply Hn. rewrite <- E. now apply in_map.
Qed.

(** X10. When [deleteMessagesByChatIdAfterTimestamp] returns, no message
    of the chat created at or after the timestamp is left, the messages of
    other chats are all kept, and so are the older messages of the chat
    where no two messages share an [_id]; the result is [undefined] exactly
    when there was nothing to delete. *)
Theorem deleteMessagesByChatIdAfterTimestamp_messages
    (chatId : string) (timestamp : Date) (w : World) (r : option nat) (w' : World) :
  deleteMessagesByChatIdAfterTimestamp chatId timestamp w = (Ok r, w') ->
  (forall m, In m (messages (db w')) -> msg_chatId (fields m) = chatId ->
             (msg_createdAt (fields m) < timestamp)%Z) /\
  (forall m, In m (messages (db w)) -> msg_chatId (fields m) <> chatId ->
             In m (messages (db w'))) /\
  (NoDup (map (fun m => _id m) (messages (db w))) ->
   forall m, In m (messages (db w)) -> (msg_createdAt (fields m) < timestamp)%Z ->
             In m (messages (db w'))) /\
  (r = None <-> messagesFrom chatId timestamp (db w) = []).
Proof.
  intros H. apply deleteMessagesByChatIdAfterTimestamp_Ok in H.
  destruct H as [(E & -> & D) | (N & Hr & D)].
  - rewrite D. repeat split; auto.
    intros m Hm Em.
    destruct (Z.ltb_spec (msg_createdAt (fields m)) timestamp) as [Lt|Ge]; [exact Lt|].
    assert (X : In m (messagesFrom chatId timestamp (db w))).
    { apply filter_In. split; [exact Hm|].
      rewrite Em, String.eqb_refl. simpl. now apply Z.leb_le. }
    rewrite E in X. destruct X.
  - rewrite D. simpl. repeat split.
    + intros m Hm Em. apply filter_In in Hm. destruct Hm as (Hm & K).
      destruct (Z.ltb_spec (msg_createdAt (fields m)) timestamp) as [Lt|Ge]; [exact Lt|].
      exfalso. apply negb_true_iff, andb_false_iff in K.
      destruct K as [K|K].
      * rewrite Em, String.eqb_refl in K. discriminate K.
      * assert (X : isIn (_id m)
                      (map (fun m0 => _id m0) (messagesFrom chatId timestamp (db w))) = true).
        { apply isIn_In, in_map, filter_In. split; [exact Hm|].
          rewrite Em, String.eqb_refl. simpl. now apply Z.leb_le. }
        congruence.
    + intros m Hm Ne. apply filter_In. split; [exact Hm|].
      apply String.eqb_neq in Ne. now rewrite Ne.
    + intros U m Hm Lt. apply filter_In. split; [exact Hm|].
      apply negb_true_iff, andb_false_iff. right.
      destruct (isIn (_id m) _) eqn:I; [|reflexivity].
      exfalso. apply isIn_In, in_map_iff in I. destruct I as (m' & Eid & Hm').
      apply filter_In in Hm'. destruct Hm' as (Hm' & K).
      assert (m' = m) by (apply (NoDup_map_injective (fun x => _id x) _ _ _ U); auto).
      subst m'. apply andb_true_iff in K. destruct K as (_ & K).
      apply Z.leb_le in K. lia.
    + intros ->. now destruct Hr.
    + intros E. now destruct N.
Qed.

Lemma deleteMessagesByChatIdAfterTimestamp_messages_witness :
  let w := world sampleDb [] in
  let out := deleteMessagesByChatIdAfterTimestamp "c1" 1699999995000%Z w in
  fst out = Ok (Some 1) /\
  messages (db (snd out)) = [ messageOf "d1" "m1" "c1" "user" 1699999990000 ] /\
  (forall m, In m (messages (db (snd out))) -> msg_chatId (fields m) = "c1" ->
             (msg_createdAt (fields m) < 1699999995000)%Z).
Proof.
  intros w out. split; [reflexivity|]. split; [reflexivity|].
  apply (deleteMessagesByChatIdAfterTimestamp_messages
           "c1" 1699999995000%Z w (Some 1) (snd out)).
  reflexivity.
Defined.

(** X11. [deleteMessagesByChatIdAfterTimestamp] selects the votes to delete
    by the [_id]s of the deleted messages: when it returns, every vote
    whose [messageId] is not the [_id] of a stored message is still there,
    as is every vote of another chat. *)
Theorem deleteMessagesByChatIdAfterTimestamp_votes
    (chatId : string) (timestamp : Date) (w : World) (r : option nat) (w' : World) :
  deleteMessagesByChatIdAfterTimestamp chatId timestamp w = (Ok r, w') ->
  forall v, In v (votes (db w)) ->
    vote_chatId (fields v) <> chatId \/
    (forall m, In m (messages (db w)) -> _id m <> vote_messageId (fields v)) ->
    In v (votes (db w')).
Proof.
  intros H v Hv K. apply deleteMessagesByChatIdAfterTimestamp_Ok in H.
  destruct H as [(_ & _ & D) | (_ & _ & D)]; rewrite D; [exact Hv|].
  simpl. apply filter_In. split; [exact Hv|].
  apply negb_true_iff, andb_false_iff.
  destruct K as [Ne|Nid].
  - left. now apply String.eqb_neq.
  - right. destruct (isIn _ _) eqn:I; [|reflexivity].
    exfalso. apply isIn_In, in_map_iff in I. destruct I as (m & Eid & Hm).
    apply filter_In in Hm. destruct Hm as (Hm & _). exact (Nid m Hm Eid).
Qed.

Lemma deleteMessagesByChatIdAfterTimestamp_votes_witness :
  let w := world sampleDb [] in
  let out := deleteMessagesByChatIdAfterTimestamp "c1" 1699999995000%Z w in
  fst out = Ok (Some 1) /\
  List.find (fun m => msg_id (fields m) =? "m2") (messages (db (snd out))) = None /\
  In (voteOf "e1" "c1" "m2" true) (votes (db (snd out))).
Proof.
  intros w out. split; [reflexivity|]. split; [reflexivity|].
  apply (deleteMessagesByChatIdAfterTimestamp_votes
           "c1" 1699999995000%Z w (Some 1) (snd out) eq_refl).
  - simpl. auto.
  - right. intros m [<-|[<-|[]]]; simpl; discriminate.
Defined.

(** ** Chats *)

Section UpdateFirstFacts.
Context {A : Type} (p : A -> bool) (g : A -> A).

Lemma find_updateFirst (l : list A) :
  (forall x, p (g x) = p x) ->
  List.find p (updateFirst p g l) = option_map g (List.find p l).
Proof.
  intros Hg. induction l as [|x l IH]; simpl; [reflexivity|].
  destruct (p x) eqn:Px; simpl.
  - now rewrite Hg, Px.
  - now rewrite Px.
Qed.

Lemma updateFirst_keeps (l : list A) (x : A) :
  In x l -> p x = false -> In x (updateFirst p g l).
Proof.
  induction l as [|y l IH]; simpl; [tauto|].
  intros [->|Hx] Px.
  - rewrite Px. now left.
  - destruct (p y); right; auto.
Qed.

Lemma length_updateFirst (l : list A) : length (updateFirst p g l) = length l.
Proof.
  induction l as [|y l IH]; simpl; [reflexivity|].
  destruct (p y); simpl; auto.
Qed.

End UpdateFirstFacts.

Lemma removeFirst_keeps {A} (p : A -> bool) (l : list A) (x : A) :
  In x l -> p x = false -> In x (removeFirst p l).
Proof.
  induction l as [|y l IH]; simpl; [tauto|].
  intros [->|Hx] Px.
  - rewrite Px. now left.
  - destruct (p y); [exact Hx | right; auto].
Qed.

(** X12. After [updateChatVisiblityById] returned, [getChatById] returns
    the chat that had the id, with the new visibility and nothing else
    changed, or [null] if there was none; the count returned is 1 or 0
    accordingly, and every chat with another id is kept. *)
Theorem updateChatVisiblityById_then_getChatById
    (chatId : string) (visibility : VisibilityType)
    (w : World) (n : nat) (w1 w2 : World) (r : option (Doc IChat)) (w3 : World) :
  updateChatVisiblityById chatId visibility w = (Ok n, w1) ->
  db w2 = db w1 ->
  getChatById chatId w2 = (Ok r, w3) ->
  r = option_map
        (fun c => {| _id := _id c;
                     fields := {| chat_id := chat_id (fields c);
                                  chat_createdAt := chat_createdAt (fields c);
                                  chat_title := chat_title (fields c);
                                  chat_userId := chat_userId (fields c);
                                  chat_visibility := visibility |} |})
        (lookupChat chatId (db w)) /\
  n = match lookupChat chatId (db w) with Some _ => 1 | None => 0 end /\
  (forall c, In c (chats (db w)) -> chat_id (fields c) <> chatId -> In c (chats (db w1))) /\
  length (chats (db w1)) = length (chats (db w)).
Proof.
  intros H1 E H2.
  unfold updateChatVisiblityById in H1. peel H1.
  pose proof H1 as H1'. apply updateOne_Ok in H1.
  unfold updateOne in H1'. apply roundTrip_Ok in H1'. destruct H1' as (N & _).
  inversion N as [[Nn Nd]]. clear N Nd.
  unfold getChatById in H2. peel H2. apply execOne_find_Ok in H2.
  destruct H2 as (-> & _). rewrite E, H1. simpl.
  split; [| split; [| split] ].
  - rewrite find_updateFirst; [reflexivity|]. intros x. reflexivity.
  - unfold lookupChat.
    destruct (List.find _ (chats (db w))) as [c|] eqn:F.
    + apply find_some in F.
      assert (X : existsb (fun c0 : Doc IChat => chat_id (fields c0) =? chatId)
                    (chats (db w)) = true) by (apply existsb_exists; eauto).
      simpl in X. now rewrite X.
    + destruct (existsb _ (chats (db w))) eqn:X; [|reflexivity].
      apply existsb_exists in X. destruct X as (c & Hc & Pc).
      pose proof (find_none _ _ F c Hc) as Q. simpl in Q. congruence.
  - intros c Hc Ne. apply updateFirst_keeps; [exact Hc|].
    now apply String.eqb_neq.
  - apply length_updateFirst.
Qed.

Lemma updateChatVisiblityById_then_getChatById_witness :
  let w := world sampleDb [] in
  let updated := updateChatVisiblityById "c2" public w in
  let got := getChatById "c2" (snd updated) in
  fst updated = Ok 1 /\
  fst got = Ok (Some {| _id := "b2";
                        fields := {| chat_id := "c2"; chat_createdAt := 200%Z;
                                     chat_title := "untitled"; chat_userId := "u1";
                                     chat_visibility := public |} |}) /\
  length (chats (db (snd updated))) = length (chats (db w)).
Proof.
  intros w updated got. split; [reflexivity|]. split; [reflexivity|].
  destruct (updateChatVisiblityById_then_getChatById "c2" public w 1
              (snd updated) (snd updated)
              (Some {| _id := "b2";
                       fields := {| chat_id := "c2"; chat_createdAt := 200%Z;
                                    chat_title := "untitled"; chat_userId := "u1";
                                    chat_visibility := public |} |})
              (snd got) eq_refl eq_refl eq_refl) as (_ & _ & _ & L).
  exact L.
Defined.

Lemma deleteChatById_Ok id w r w' :
  deleteChatById id w = (Ok r, w') ->
  db w' =
  setColl Chat (removeFirst (fun c => chat_id (fields c) =? id) (chats (db w)))
    (setColl Stream
       (filter (fun s => negb (stream_chatId (fields s) =? id)) (streams (db w)))
       (setColl Message
          (filter (fun m => negb (msg_chatId (fields m) =? id)) (messages (db w)))
          (setColl Vote
             (filter (fun v => negb (vote_chatId (fields v) =? id)) (votes (db w)))
             (db w)))) /\
  r = (if existsb (fun c => chat_id (fields c) =? id) (chats (db w))
       then Some id else None).
Proof.
  intros H. unfold deleteChatById in H.
  peel H. peel H. peel H. peel H. peel H. peel H.
  apply deleteMany_Ok in Hstep. destruct Hstep as (D1 & _).
  apply deleteMany_Ok in Hstep0. destruct Hstep0 as (D2 & _).
  apply deleteMany_Ok in Hstep1. destruct Hstep1 as (D3 & _).
  apply deleteOne_Ok in Hstep2. destruct Hstep2 as (D4 & N).
  subst w'. rewrite D4, D3, D2, D1. simpl. split; [reflexivity|].
  subst r a2. rewrite D3, D2, D1. simpl.
  destruct (existsb _ (chats (db w))); reflexivity.
Qed.

(** X13. [deleteChatById] touches nothing but the chat and what hangs on
    it: when it returns, users, documents and suggestions are as they were,
    every vote, message and stream of another chat and every chat with
    another id is kept, and the result is [{ id }] exactly when a chat with
    the id was stored. *)
Theorem deleteChatById_frame (id : string) (w : World) (r : option string) (w' : World) :
  deleteChatById id w = (Ok r, w') ->
  users (db w') = users (db w) /\
  documents (db w') = documents (db w) /\
  suggestions (db w') = suggestions (db w) /\
  (forall v, In v (votes (db w)) -> vote_chatId (fields v) <> id -> In v (votes (db w'))) /\
  (forall m, In m (messages (db w)) -> msg_chatId (fields m) <> id ->
             In m (messages (db w'))) /\
  (forall s, In s (streams (db w)) -> stream_chatId (fields s) <> id ->
             In s (streams (db w'))) /\
  (forall c, In c (chats (db w)) -> chat_id (fields c) <> id -> In c (chats (db w'))) /\
  (r = Some id <-> exists c, In c (chats (db w)) /\ chat_id (fields c) = id).
Proof.
  intros H. apply deleteChatById_Ok in H. destruct H as (D & R).
  rewrite D. simpl.
  split; [reflexivity|]. split; [reflexivity|]. split; [reflexivity|].
  split; [| split; [| split; [| split] ] ].
  - intros v Hv Ne. apply filter_In. split; [exact Hv|].
    apply String.eqb_neq in Ne. now rewrite Ne.
  - intros m Hm Ne. apply filter_In. split; [exact Hm|].
    apply String.eqb_neq in Ne. now rewrite Ne.
  - intros s Hs Ne. apply filter_In. split; [exact Hs|].
    apply String.eqb_neq in Ne. now rewrite Ne.
  - intros c Hc Ne. apply removeFirst_keeps; [exact Hc|]. now apply String.eqb_neq.
  - rewrite R. destruct (existsb _ (chats (db w))) eqn:X.
    + split; [intros _ | reflexivity].
      apply existsb_exists in X. destruct X as (c & Hc & Ec).
      apply String.eqb_eq in Ec. eauto.
    + split; [discriminate|]. intros (c & Hc & Ec). exfalso.
      assert (Y : existsb (fun c0 : Doc IChat => chat_id (fields c0) =? id)
                    (chats (db w)) = true).
      { apply existsb_exists. exists c. split; [exact Hc|]. now apply String.eqb_eq. }
      congruence.
Qed.

Lemma deleteChatById_frame_witness :
  let w := world sampleDb [] in
  let out := deleteChatById "c2" w in
  fst out = Ok (Some "c2") /\
  users (db (snd out)) = users (db w) /\
  messages (db (snd out)) = messages (db w) /\
  votes (db (snd out)) = votes (db w).
Proof.
  intros w out. split; [reflexivity|].
  destruct (deleteChatById_frame "c2" w (Some "c2") (snd out) eq_refl) as (U & _).
  split; [exact U|]. split; reflexivity.
Defined.

(** X14. The cascade is not atomic: when the three [deleteMany] go through
    and the final [Chat.deleteOne] fails, [deleteChatById] raises
    [bad_request:database], the chats are as they were, and the votes,
    messages and streams of the chat are gone. *)
Theorem deleteChatById_interrupted (id : string) (w : World) (fs : list bool) :
  faults w = false :: false :: false :: true :: fs ->
  fst (deleteChatById id w) =
    Throw (EChatSDK {| kind := "bad_request:database";
                       message := "Failed to delete chat by id" |}) /\
  chats (db (snd (deleteChatById id w))) = chats (db w) /\
  votes (db (snd (deleteChatById id w))) =
    filter (fun v => negb (vote_chatId (fields v) =? id)) (votes (db w)) /\
  messages (db (snd (deleteChatById id w))) =
    filter (fun m => negb (msg_chatId (fields m) =? id)) (messages (db w)) /\
  streams (db (snd (deleteChatById id w))) =
    filter (fun s => negb (stream_chatId (fields s) =? id)) (streams (db w)).
Proof.
  intros F.
  unfold deleteChatById, try_catch, bind, deleteMany, deleteOne, roundTrip.
  rewrite F. simpl. auto.
Qed.

Lemma deleteChatById_interrupted_witness :
  let w := world sampleDb [false; false; false; true] in
  faults w = false :: false :: false :: true :: [] /\
  fst (deleteChatById "c1" w) =
    Throw (EChatSDK {| kind := "bad_request:database";
                       message := "Failed to delete chat by id" |}) /\
  chats (db (snd (deleteChatById "c1" w))) = chats sampleDb /\
  messages (db (snd (deleteChatById "c1" w))) = [].
Proof.
  intros w.
  assert (F : faults w = false :: false :: false :: true :: []) by reflexivity.
  split; [exact F|].
  destruct (deleteChatById_interrupted "c1" w [] F) as (T & C & _).
  split; [exact T|]. split; [exact C | reflexivity].
Defined.

(** ** Pages of chats *)

Lemma getChatsByUserId_cursor_found id limit_ startingAfter endingBefore w page w' cur :
  getChatsByUserId id limit_ startingAfter endingBefore w = (Ok page, w') ->
  activeCursor startingAfter endingBefore = Some cur ->
  lookupChat cur (db w) <> None.
Proof.
  intros H Hc. unfold getChatsByUserId in H. peel H. peel H. clear H.
  apply activeCursor_Some in Hc. unfold lookupChat.
  destruct Hc as [(T1 & S1) | (T1 & T2 & S2)].
  - rewrite T1 in Hstep. peel Hstep.
    apply execOne_find_Ok in Hstep0. destruct Hstep0 as (F & _).
    simpl in F. rewrite S1 in F. rewrite <- F.
    destruct a0; [discriminate | discriminate Hstep].
  - rewrite T1, T2 in Hstep. peel Hstep.
    apply execOne_find_Ok in Hstep0. destruct Hstep0 as (F & _).
    simpl in F. rewrite S2 in F. rewrite <- F.
    destruct a0; [discriminate | discriminate Hstep].
Qed.

(** X15. The chats of a page returned by [getChatsByUserId] (for a limit
    [N >= 0]) all belong to the user, come newest first, and lie strictly
    after the [startingAfter] chat in time, or strictly before the
    [endingBefore] chat when [startingAfter] is not in force. *)
Theorem getChatsByUserId_page_contents
    (id : string) (N : Z) (startingAfter endingBefore : option string)
    (w : World) (page : ChatPage) (w' : World) :
  (0 <= N)%Z ->
  getChatsByUserId id N startingAfter endingBefore w = (Ok page, w') ->
  (forall c, In c (page_chats page) ->
     In c (chats (db w)) /\ chat_userId (fields c) = id) /\
  StronglySorted
    (fun a b => (chat_createdAt (fields b) <= chat_createdAt (fields a))%Z)
    (page_chats page) /\
  (Js.truthy startingAfter = true ->
   exists s, lookupChat (Js.str startingAfter) (db w) = Some s /\
     forall c, In c (page_chats page) ->
               (chat_createdAt (fields s) < chat_createdAt (fields c))%Z) /\
  (Js.truthy startingAfter = false -> Js.truthy endingBefore = true ->
   exists s, lookupChat (Js.str endingBefore) (db w) = Some s /\
     forall c, In c (page_chats page) ->
               (chat_createdAt (fields c) < chat_createdAt (fields s))%Z).
Proof.
  intros Hpos H.
  pose proof (fun cur => getChatsByUserId_cursor_found
                           id N startingAfter endingBefore w page w' cur H) as Found.
  apply getChatsByUserId_Ok in H. destruct H as (-> & _).
  destruct (pageOf_limit N
              (sortBy createdAtDesc (matchingChats id startingAfter endingBefore (db w)))
              Hpos) as (-> & _).
  assert (Sub : forall c,
            In c (firstn (Z.to_nat N)
                    (sortBy createdAtDesc
                       (matchingChats id startingAfter endingBefore (db w)))) ->
            In c (chats (db w)) /\ chat_userId (fields c) = id /\
            cursorFilter startingAfter endingBefore (db w) c = true).
  { intros c Hc. apply firstn_subset, In_sortBy, filter_In in Hc.
    destruct Hc as (Hc & K). apply andb_true_iff in K. destruct K as (K1 & K2).
    apply String.eqb_eq in K1. auto. }
  split; [| split; [| split] ].
  - intros c Hc. apply Sub in Hc. tauto.
  - apply StronglySorted_firstn.
    eapply StronglySorted_weaken; [| apply (sortBy_sorted createdAtDesc)].
    + unfold createdAtDesc. intros a b E. now apply Z.leb_le in E.
    + unfold createdAtDesc. intros a b.
      destruct (Z.leb_spec (chat_createdAt (fields b)) (chat_createdAt (fields a)));
        [now left | right; apply Z.leb_le; lia].
    + unfold createdAtDesc. intros a b c E1 E2.
      apply Z.leb_le in E1, E2. apply Z.leb_le. lia.
  - intros T1.
    destruct (lookupChat (Js.str startingAfter) (db w)) as [s|] eqn:L.
    + exists s. split; [reflexivity|]. intros c Hc. apply Sub in Hc.
      destruct Hc as (_ & _ & K). unfold cursorFilter in K. rewrite T1, L in K.
      now apply Z.ltb_lt.
    + exfalso. apply (Found (Js.str startingAfter)); [|exact L].
      unfold activeCursor. rewrite T1.
      destruct startingAfter; [reflexivity | discriminate T1].
  - intros T1 T2.
    destruct (lookupChat (Js.str endingBefore) (db w)) as [s|] eqn:L.
    + exists s. split; [reflexivity|]. intros c Hc. apply Sub in Hc.
      destruct Hc as (_ & _ & K). unfold cursorFilter in K. rewrite T1, T2, L in K.
      now apply Z.ltb_lt.
    + exfalso. apply (Found (Js.str endingBefore)); [|exact L].
      unfold activeCursor. rewrite T1, T2.
      destruct endingBefore; [reflexivity | discriminate T2].
Qed.

Lemma getChatsByUserId_page_contents_witness :
  let w := world sampleDb [] in
  let out := getChatsByUserId "u1" 2 None (Some "c3") w in
  (0 <= 2)%Z /\
  fst out = Ok {| page_chats := [ chatOf "b2" "c2" 200 "u1"; chatOf "b1" "c1" 100 "u1" ];
                  hasMore := false |} /\
  (forall c, In c [ chatOf "b2" "c2" 200 "u1"; chatOf "b1" "c1" 100 "u1" ] ->
     In c (chats (db w)) /\ chat_userId (fields c) = "u1").
Proof.
  intros w out.
  assert (P : (0 <= 2)%Z) by lia.
  split; [exact P|]. split; [reflexivity|].
  destruct (getChatsByUserId_page_contents "u1" 2 None (Some "c3") w
              {| page_chats := [ chatOf "b2" "c2" 200 "u1"; chatOf "b1" "c1" 100 "u1" ];
                 hasMore := false |} (snd out) P eq_refl) as (H & _).
  exact H.
Defined.

(** X16. With a negative limit [getChatsByUserId] reports [hasMore]
    whatever the store holds, even for a user without chats. *)
Theorem getChatsByUserId_negative_limit
    (id : string) (limit_ : Z) (startingAfter endingBefore : option string)
    (w : World) (page : ChatPage) (w' : World) :
  (limit_ < 0)%Z ->
  getChatsByUserId id limit_ startingAfter endingBefore w = (Ok page, w') ->
  hasMore page = true /\
  (0 < length (page_chats page) ->
   limit_ = (-1)%Z /\
   length (page_chats page) <
   length (matchingChats id startingAfter endingBefore (db w))).
Proof.
  intros Hneg H. apply getChatsByUserId_Ok in H. destruct H as (-> & _).
  unfold pageOf. simpl.
  set (l := sortBy createdAtDesc (matchingChats id startingAfter endingBefore (db w))).
  assert (Hl : length l = length (matchingChats id startingAfter endingBefore (db w)))
    by apply length_sortBy.
  rewrite <- Hl.
  assert (M : (limit_ <? Z.of_nat (length (applyLimit (limit_ + 1) l)))%Z = true)
    by (apply Z.ltb_lt; lia).
  rewrite M. split; [reflexivity|].
  unfold Js.slice0. destruct (Z.ltb_spec limit_ 0) as [_|?]; [|lia].
  rewrite length_firstn. unfold applyLimit.
  destruct (Z.eqb_spec (limit_ + 1) 0) as [E|Ne].
  - intros Pos. split; [lia|]. lia.
  - rewrite length_firstn. intros Pos. exfalso. lia.
Qed.

Lemma getChatsByUserId_negative_limit_witness :
  let w := world sampleDb [] in
  let out := getChatsByUserId "nobody" (-1) None None w in
  (-1 < 0)%Z /\
  fst out = Ok {| page_chats := []; hasMore := true |} /\
  hasMore {| page_chats := []; hasMore := true |} = true.
Proof.
  intros w out.
  assert (P : (-1 < 0)%Z) by lia.
  split; [exact P|]. split; [reflexivity|].
  destruct (getChatsByUserId_negative_limit "nobody" (-1) None None w
              {| page_chats := []; hasMore := true |} (snd out) P eq_refl) as (H & _).
  exact H.
Defined.

(** *** The next page *)

Lemma Permutation_filter_compat {A} (p : A -> bool) (l l' : list A) :
  Permutation l l' -> Permutation (filter p l) (filter p l').
Proof.
  induction 1 as [|x l l' _ IH|x y l|l l' l'' _ IH1 _ IH2]; simpl.
  - constructor.
  - destruct (p x); [now constructor | exact IH].
  - destruct (p x), (p y); try reflexivity. apply perm_swap.
  - now transitivity (filter p l').
Qed.

Lemma filter_andb {A} (p q : A -> bool) (l : list A) :
  filter (fun x => p x && q x) l = filter q (filter p l).
Proof.
  induction l as [|x l IH]; simpl; [reflexivity|].
  destruct (p x); simpl; [destruct (q x); now rewrite IH | exact IH].
Qed.

Lemma filter_all {A} (p : A -> bool) (l : list A) :
  (forall x, In x l -> p x = true) -> filter p l = l.
Proof.
  induction l as [|x l IH]; simpl; [reflexivity|].
  intros H. rewrite (H x) by now left. f_equal. apply IH. intros y Hy. apply H. now right.
Qed.

Lemma firstn_plus {A} (a b : nat) (l : list A) :
  firstn (a + b) l = firstn a l ++ firstn b (skipn a l).
Proof.
  revert l. induction a as [|a IH]; intros l; simpl; [reflexivity|].
  destruct l as [|x l]; simpl; [now rewrite firstn_nil | now rewrite IH].
Qed.

Section Descending.
Context {A : Type} (key : A -> Z).

Lemma StronglySorted_filter (p : A -> bool) (l : list A) :
  StronglySorted (newerFirst key) l -> StronglySorted (newerFirst key) (filter p l).
Proof.
  induction 1 as [|x l _ IH Hx]; simpl; [constructor|].
  destruct (p x); [|exact IH]. constructor; [exact IH|].
  rewrite Forall_forall in *. intros y Hy. apply filter_In in Hy. apply Hx. tauto.
Qed.

Lemma StronglySorted_app_inv (l1 l2 : list A) :
  StronglySorted (newerFirst key) (l1 ++ l2) ->
  StronglySorted (newerFirst key) l2 /\
  forall a b, In a l1 -> In b l2 -> newerFirst key a b.
Proof.
  induction l1 as [|x l1 IH]; simpl; intros H.
  - split; [exact H | intros a b []].
  - inversion H as [|? ? Hs Hx]; subst. destruct (IH Hs) as (S2 & C).
    split; [exact S2|]. intros a b [<-|Ha] Hb.
    + rewrite Forall_forall in Hx. apply Hx. apply in_or_app. now right.
    + now apply C.
Qed.

(** Two descending lists with the same elements and distinct keys are
    the same list. *)
Lemma descending_unique (l1 : list A) :
  forall l2,
    StronglySorted (newerFirst key) l1 -> StronglySorted (newerFirst key) l2 ->
    Permutation l1 l2 -> NoDup (map key l1) -> l1 = l2.
Proof.
  induction l1 as [|x l1 IH]; intros l2 S1 S2 P U.
  - apply Permutation_nil in P. now subst.
  - destruct l2 as [|y l2].
    { symmetry in P. apply Permutation_nil in P. discriminate P. }
    inversion S1 as [|? ? S1' Hx]; subst. inversion S2 as [|? ? S2' Hy]; subst.
    inversion U as [|? ? Un Ud]; subst.
    rewrite Forall_forall in Hx, Hy.
    assert (E : x = y).
    { pose proof (Permutation_in x P (or_introl eq_refl)) as Ix.
      pose proof (Permutation_in y (Permutation_sym P) (or_introl eq_refl)) as Iy.
      destruct Ix as [->|Ix]; [reflexivity|].
      destruct Iy as [->|Iy]; [reflexivity|].
      exfalso. apply Un.
      pose proof (Hx y Iy) as K1. pose proof (Hy x Ix) as K2.
      unfold newerFirst in K1, K2.
      replace (key x) with (key y) by lia. now apply in_map. }
    subst y. f_equal. apply IH; auto.
    now apply Permutation_cons_inv in P.
Qed.

(** In a descending list with distinct keys, what lies strictly below an
    element is what comes after it. *)
Lemma filter_below (l1 l2 : list A) (c : A) :
  StronglySorted (newerFirst key) (l1 ++ c :: l2) ->
  NoDup (map key (l1 ++ c :: l2)) ->
  filter (fun x => (key x <? key c)%Z) (l1 ++ c :: l2) = l2.
Proof.
  intros S U. destruct (StronglySorted_app_inv _ _ S) as (S2 & C).
  rewrite filter_app. rewrite (filter_nil_of _ l1).
  - simpl. rewrite Z.ltb_irrefl.
    inversion S2 as [|? ? _ Hc]; subst. rewrite Forall_forall in Hc.
    rewrite map_app in U. apply NoDup_app_remove_l in U. simpl in U.
    inversion U as [|? ? Un _]; subst.
    apply filter_all. intros x Hx. apply Z.ltb_lt.
    pose proof (Hc x Hx) as K. unfold newerFirst in K.
    assert (key x <> key c) by (intros E; apply Un; rewrite <- E; now apply in_map).
    lia.
  - intros x Hx. apply Z.ltb_ge. apply (C x c Hx). now left.
Qed.

End Descending.

Lemma sortBy_createdAtDesc_sorted (l : list (Doc IChat)) :
  StronglySorted (newerFirst createdAtOf) (sortBy createdAtDesc l).
Proof.
  eapply StronglySorted_weaken; [| apply (sortBy_sorted createdAtDesc)].
  - unfold createdAtDesc, newerFirst, createdAtOf. intros a b E. now apply Z.leb_le in E.
  - unfold createdAtDesc. intros a b.
    destruct (Z.leb_spec (chat_createdAt (fields b)) (chat_createdAt (fields a)));
      [now left | right; apply Z.leb_le; lia].
  - unfold createdAtDesc. intros a b c E1 E2.
    apply Z.leb_le in E1, E2. apply Z.leb_le. lia.
Qed.

Lemma lookupChat_unique (d : Database) (c : Doc IChat) :
  chatIdsUnique d -> In c (chats d) -> lookupChat (chat_id (fields c)) d = Some c.
Proof.
  intros U Hc. unfold lookupChat.
  destruct (List.find _ (chats d)) as [s|] eqn:F.
  - apply find_some in F. destruct F as (Hs & Es). apply String.eqb_eq in Es.
    f_equal. apply (NoDup_map_injective (fun x => chat_id (fields x)) _ _ _ U); auto.
  - pose proof (find_none _ _ F c Hc) as N. simpl in N.
    rewrite String.eqb_refl in N. discriminate N.
Qed.

(** X17. Paging with [endingBefore]: where chat ids are unique and the
    user's chats have distinct creation times, a first page followed by
    the page that ends before the first page's last chat are, together,
    the first [2N] of the user's chats, newest first: nothing is skipped
    and nothing comes twice. *)
Theorem getChatsByUserId_next_page
    (id : string) (N : Z) (w : World) (p1 : ChatPage) (w1 : World)
    (init : list (Doc IChat)) (c : Doc IChat)
    (w2 : World) (p2 : ChatPage) (w3 : World) :
  (0 <= N)%Z ->
  chatIdsUnique (db w) ->
  NoDup (map createdAtOf (matchingChats id None None (db w))) ->
  getChatsByUserId id N None None w = (Ok p1, w1) ->
  page_chats p1 = init ++ [c] ->
  chat_id (fields c) <> "" ->
  db w2 = db w ->
  getChatsByUserId id N None (Some (chat_id (fields c))) w2 = (Ok p2, w3) ->
  page_chats p1 ++ page_chats p2 =
    firstn (Z.to_nat N + Z.to_nat N)
      (sortBy createdAtDesc (matchingChats id None None (db w))) /\
  (forall x, In x (page_chats p2) -> (createdAtOf x < createdAtOf c)%Z).
Proof.
  intros Hpos U Dt H1 Hl Hid E H2.
  set (mine := matchingChats id None None (db w)) in *.
  set (L := sortBy createdAtDesc mine).
  apply getChatsByUserId_Ok in H1. destruct H1 as (-> & _).
  apply getChatsByUserId_Ok in H2. destruct H2 as (-> & _).
  rewrite E.
  destruct (pageOf_limit N L Hpos) as (P1 & _). fold mine L in Hl |- *.
  rewrite P1 in Hl |- *.
  destruct (pageOf_limit N
              (sortBy createdAtDesc
                 (matchingChats id None (Some (chat_id (fields c))) (db w)))
              Hpos) as (P2 & _).
  rewrite P2. clear P1 P2.
  assert (SL : StronglySorted (newerFirst createdAtOf) L)
    by apply sortBy_createdAtDesc_sorted.
  assert (DL : NoDup (map createdAtOf L)).
  { apply (Permutation_NoDup (l := map createdAtOf mine)); [|exact Dt].
    apply Permutation_map. symmetry. apply sortBy_perm. }
  assert (Split : L = init ++ c :: skipn (Z.to_nat N) L).
  { rewrite <- (firstn_skipn (Z.to_nat N) L) at 1. rewrite Hl.
    now rewrite <- app_assoc. }
  assert (Hc : In c (chats (db w))).
  { assert (X : In c L) by (rewrite Split; apply in_or_app; right; now left).
    apply In_sortBy in X. unfold mine, matchingChats in X.
    apply filter_In in X. tauto. }
  assert (T : Js.truthy (Some (chat_id (fields c))) = true).
  { simpl. apply negb_true_iff. now apply String.eqb_neq. }
  assert (M2 : matchingChats id None (Some (chat_id (fields c))) (db w) =
               filter (fun x => (createdAtOf x <? createdAtOf c)%Z) mine).
  { unfold mine, matchingChats. rewrite <- filter_andb. apply filter_ext.
    intros x. unfold cursorFilter.
    change (Js.truthy None) with false. cbv iota. rewrite T.
    change (Js.str (Some (chat_id (fields c)))) with (chat_id (fields c)).
    rewrite (lookupChat_unique _ _ U Hc). unfold createdAtOf.
    now rewrite andb_true_r. }
  assert (S2 : sortBy createdAtDesc
                 (matchingChats id None (Some (chat_id (fields c))) (db w)) =
               skipn (Z.to_nat N) L).
  { rewrite M2.
    rewrite <- (filter_below createdAtOf init (skipn (Z.to_nat N) L) c);
      [| now rewrite <- Split | now rewrite <- Split ].
    rewrite <- Split.
    apply (descending_unique createdAtOf).
    - apply sortBy_createdAtDesc_sorted.
    - now apply StronglySorted_filter.
    - rewrite sortBy_perm. apply Permutation_filter_compat. symmetry. apply sortBy_perm.
    - apply (Permutation_NoDup
               (l := map createdAtOf (filter (fun x => (createdAtOf x <? createdAtOf c)%Z) mine))).
      + apply Permutation_map. symmetry. apply sortBy_perm.
      + now apply NoDup_map_filter. }
  rewrite S2. split.
  - symmetry. apply firstn_plus.
  - intros x Hx. apply firstn_subset in Hx.
    rewrite <- (filter_below createdAtOf init (skipn (Z.to_nat N) L) c) in Hx;
      [| now rewrite <- Split | now rewrite <- Split ].
    apply filter_In in Hx. destruct Hx as (_ & K). now apply Z.ltb_lt.
Qed.

Lemma getChatsByUserId_next_page_witness :
  let w := world sampleDb [] in
  let first := getChatsByUserId "u1" 1 None None w in
  let second := getChatsByUserId "u1" 1 None (Some "c3") (snd first) in
  fst first = Ok {| page_chats := [ chatOf "b3" "c3" 300 "u1" ]; hasMore := true |} /\
  fst second = Ok {| page_chats := [ chatOf "b2" "c2" 200 "u1" ]; hasMore := true |} /\
  [ chatOf "b3" "c3" 300 "u1" ] ++ [ chatOf "b2" "c2" 200 "u1" ] =
    firstn (Z.to_nat 1 + Z.to_nat 1)
      (sortBy createdAtDesc (matchingChats "u1" None None (db w))).
Proof.
  intros w first second. split; [reflexivity|]. split; [reflexivity|].
  assert (P : (0 <= 1)%Z) by lia.
  assert (U : chatIdsUnique (db w)).
  { unfold chatIdsUnique. simpl.
    repeat (constructor; [simpl; intuition discriminate|]). constructor. }
  assert (D : NoDup (map createdAtOf (matchingChats "u1" None None (db w)))).
  { simpl. repeat (constructor; [simpl; intuition discriminate|]). constructor. }
  assert (I : chat_id (fields (chatOf "b3" "c3" 300 "u1")) <> "") by (simpl; discriminate).
  destruct (getChatsByUserId_next_page "u1" 1 w
              {| page_chats := [ chatOf "b3" "c3" 300 "u1" ]; hasMore := true |}
              (snd first) [] (chatOf "b3" "c3" 300 "u1") (snd first)
              {| page_chats := [ chatOf "b2" "c2" 200 "u1" ]; hasMore := true |}
              (snd second) P U D eq_refl eq_refl I eq_refl eq_refl) as (H & _).
  exact H.
Defined.

(** ** Votes *)

Lemma getVotesByChatId_Ok id w r w' :
  getVotesByChatId id w = (Ok r, w') ->
  r = filter (fun v => vote_chatId (fields v) =? id) (votes (db w)).
Proof.
  unfold getVotesByChatId. intros H. peel H. apply exec_Ok in H. tauto.
Qed.

(** X18. Two votes on a message, both returned, on a store whose votes on
    that message are all under the chat (and whose vote keys are unique):
    [getVotesByChatId] then shows exactly one vote for the message, with
    [isUpvoted] as the second call had it. *)
Theorem voteMessage_twice_then_getVotesByChatId
    (chatId messageId : string) (t1 t2 : VoteType)
    (w : World) (r1 : VoteOutcome) (w1 w1' : World) (r2 : VoteOutcome) (w2 w2' : World)
    (r : list (Doc IVote)) (w3 : World) :
  voteKeysUnique (db w) -> votedUnder chatId messageId (db w) ->
  voteMessage chatId messageId t1 w = (Ok r1, w1) ->
  db w1' = db w1 ->
  voteMessage chatId messageId t2 w1' = (Ok r2, w2) ->
  db w2' = db w2 ->
  getVotesByChatId chatId w2' = (Ok r, w3) ->
  exists v,
    filter (fun x => vote_messageId (fields x) =? messageId) r = [v] /\
    vote_chatId (fields v) = chatId /\
    vote_isUpvoted (fields v) = isUp t2.
Proof.
  intros U S H1 E1 H2 E2 H3.
  destruct (voteMessage_twice_same_chat _ _ _ _ _ _ _ _ _ _ U S H1 E1 H2) as (v & F & Up).
  apply getVotesByChatId_Ok in H3. subst r. rewrite E2.
  exists v. rewrite <- filter_andb. fold (votesFor chatId messageId (db w2)).
  split; [exact F|]. split; [|exact Up].
  assert (X : In v (votesFor chatId messageId (db w2))) by (rewrite F; now left).
  apply filter_In in X. destruct X as (_ & K).
  apply andb_true_iff in K. destruct K as (K & _). now apply String.eqb_eq.
Qed.

Lemma voteMessage_twice_then_getVotesByChatId_witness :
  let w := world sampleDb [] in
  let first := voteMessage "c1" "m1" up w in
  let second := voteMessage "c1" "m1" down (snd first) in
  let got := getVotesByChatId "c1" (snd second) in
  fst got = Ok [ voteOf "e1" "c1" "m2" true;
                 voteOf (newObjectId sampleEnv 0) "c1" "m1" false ] /\
  exists v,
    filter (fun x => vote_messageId (fields x) =? "m1")
           [ voteOf "e1" "c1" "m2" true;
             voteOf (newObjectId sampleEnv 0) "c1" "m1" false ] = [v] /\
    vote_chatId (fields v) = "c1" /\
    vote_isUpvoted (fields v) = isUp down.
Proof.
  intros w first second got. split; [reflexivity|].
  assert (U : voteKeysUnique (db w)).
  { unfold voteKeysUnique. simpl.
    repeat (constructor; [simpl; intuition discriminate|]). constructor. }
  assert (S : votedUnder "c1" "m1" (db w)).
  { intros v [<-|[]]. simpl. discriminate. }
  apply (voteMessage_twice_then_getVotesByChatId "c1" "m1" up down w
           (Created (voteOf (newObjectId sampleEnv 0) "c1" "m1" true))
           (snd first) (snd first) (Updated 1) (snd second) (snd second)
           [ voteOf "e1" "c1" "m2" true;
             voteOf (newObjectId sampleEnv 0) "c1" "m1" false ]
           (snd got) U S); reflexivity.
Defined.

Lemma updateFirst_none {A} (p : A -> bool) (g : A -> A) (l : list A) :
  existsb p l = false -> updateFirst p g l = l.
Proof.
  induction l as [|x l IH]; simpl; [reflexivity|].
  destruct (p x); simpl; [discriminate|]. intros H. now rewrite IH.
Qed.

Lemma setColl_Vote_same (d : Database) : setColl Vote (votes d) d = d.
Proof. destruct d. reflexivity. Qed.

(** X19. A vote on a message that already has a vote under another chat,
    and none under this one, is dropped: [voteMessage] returns the result
    of an update that matched nothing, and the store is unchanged. *)
Theorem voteMessage_dropped
    (chatId messageId : string) (type : VoteType) (w : World) (r : VoteOutcome) (w' : World) :
  (exists v, In v (votes (db w)) /\ vote_messageId (fields v) = messageId) ->
  votesFor chatId messageId (db w) = [] ->
  voteMessage chatId messageId type w = (Ok r, w') ->
  r = Updated 0 /\ db w' = db w.
Proof.
  intros (v & Hv & Mv) Hnone H.
  unfold voteMessage in H. peel H. peel H.
  apply execOne_find_Ok in Hstep. destruct Hstep as (F & D0). simpl in F.
  destruct a as [e|].
  - peel H. peel H. subst w'.
    assert (X : existsb (fun x : Doc IVote =>
                           (vote_messageId (fields x) =? messageId)
                           && (vote_chatId (fields x) =? chatId)) (votes (db w)) = false).
    { destruct (existsb _ (votes (db w))) eqn:Ex; [|reflexivity].
      apply existsb_exists in Ex. destruct Ex as (x & Hx & Px).
      assert (Y : In x (votesFor chatId messageId (db w))).
      { apply filter_In. split; [exact Hx|]. now rewrite andb_comm. }
      rewrite Hnone in Y. destruct Y. }
    pose proof Hstep as Hn. apply updateOne_Ok in Hstep.
    unfold updateOne in Hn. apply roundTrip_Ok in Hn. destruct Hn as (Hn & _).
    inversion Hn as [[Na Nd]]. clear Hn Nd.
    rewrite D0 in *. simpl in *. rewrite X in Na.
    split; [now rewrite <- H, <- Na|].
    rewrite updateFirst_none by exact X. apply setColl_Vote_same.
  - exfalso. symmetry in F.
    pose proof (find_none _ _ F v Hv) as N. simpl in N.
    rewrite Mv, String.eqb_refl in N. discriminate N.
Qed.

Lemma voteMessage_dropped_witness :
  let w := world sampleDb [] in
  (exists v, In v (votes (db w)) /\ vote_messageId (fields v) = "m2") /\
  votesFor "c4" "m2" (db w) = [] /\
  fst (voteMessage "c4" "m2" down w) = Ok (Updated 0) /\
  db (snd (voteMessage "c4" "m2" down w)) = db w.
Proof.
  intros w.
  assert (E : exists v, In v (votes (db w)) /\ vote_messageId (fields v) = "m2").
  { eexists. split; [left; reflexivity | reflexivity]. }
  split; [exact E|]. split; [reflexivity|]. split; [reflexivity|].
  destruct (voteMessage_dropped "c4" "m2" down w (Updated 0)
              (snd (voteMessage "c4" "m2" down w)) E eq_refl eq_refl) as (_ & D).
  exact D.
Defined.

(** ** Streams *)

Lemma getStreamIdsByChatId_Ok chatId w r w' :
  getStreamIdsByChatId chatId w = (Ok r, w') ->
  r = map (fun s => stream_id (fields s))
          (sortBy (fun a b => (stream_createdAt (fields a) <=? stream_createdAt (fields b))%Z)
                  (filter (fun s => stream_chatId (fields s) =? chatId) (streams (db w)))).
Proof.
  unfold getStreamIdsByChatId. intros H. peel H. peel H.
  apply exec_Ok in Hstep. destruct Hstep as (-> & _). peel H. now symmetry.
Qed.

(** X20. After [createStreamId] returned, [getStreamIdsByChatId] for the
    chat returns the new stream id, with the ids of the chat's earlier
    streams: one more than the chat had. *)
Theorem createStreamId_then_getStreamIdsByChatId
    (streamId chatId : string) (w w1 w2 : World) (r : list string) (w3 : World) :
  createStreamId streamId chatId w = (Ok tt, w1) ->
  db w2 = db w1 ->
  getStreamIdsByChatId chatId w2 = (Ok r, w3) ->
  In streamId r /\
  (forall s, In s (streams (db w)) -> stream_chatId (fields s) = chatId ->
             In (stream_id (fields s)) r) /\
  length r =
    S (length (filter (fun s => stream_chatId (fields s) =? chatId) (streams (db w)))).
Proof.
  intros H1 E H2.
  unfold createStreamId in H1. peel H1. peel H1. peel H1. peel H1. subst w1.
  unfold Date_now in Hstep. inversion Hstep; subst; clear Hstep.
  apply create_Ok in Hstep0. destruct Hstep0 as (C & _ & _ & D).
  simpl in C. apply validated_inr in C.
  apply getStreamIdsByChatId_Ok in H2. subst r. rewrite E, D. simpl.
  assert (Pa : (stream_chatId (fields a0) =? chatId) = true).
  { rewrite <- C. simpl. apply String.eqb_refl. }
  split; [| split].
  - apply in_map_iff. exists a0. split; [now rewrite <- C|].
    apply In_sortBy, filter_In. split; [apply in_or_app; right; now left | exact Pa].
  - intros s Hs Es. apply (in_map (fun x : Doc IStream => stream_id (fields x))).
    apply In_sortBy, filter_In.
    split; [apply in_or_app; now left|]. rewrite Es. apply String.eqb_refl.
  - rewrite length_map, length_sortBy, filter_app, length_app. simpl.
    rewrite Pa. simpl. lia.
Qed.

Lemma createStreamId_then_getStreamIdsByChatId_witness :
  let w := world sampleDb [] in
  let created := createStreamId "st2" "c1" w in
  let got := getStreamIdsByChatId "c1" (snd created) in
  fst created = Ok tt /\ fst got = Ok ["st1"; "st2"] /\ In "st2" ["st1"; "st2"].
Proof.
  intros w created got. split; [reflexivity|]. split; [reflexivity|].
  destruct (createStreamId_then_getStreamIdsByChatId "st2" "c1" w
              (snd created) (snd created) ["st1"; "st2"] (snd got)
              eq_refl eq_refl eq_refl) as (H & _).
  exact H.
Defined.

(** ** Documents and suggestions *)

Lemma getDocumentById_Ok id w r w' :
  getDocumentById id w = (Ok r, w') ->
  r = hd_error
        (sortBy (fun a b => (doc_createdAt (fields b) <=? doc_createdAt (fields a))%Z)
                (filter (fun d => doc_id (fields d) =? id) (documents (db w)))).
Proof.
  unfold getDocumentById. intros H. peel H. peel H.
  unfold execOne in Hstep. apply roundTrip_Ok in Hstep. destruct Hstep as (R & _).
  inversion R; subst. peel H. now symmetry.
Qed.

(** X21. When [getDocumentById] returns a document, it is a stored
    document with the id and no stored document with the id is more
    recent; when it returns [null], no document with the id is stored. *)
Theorem getDocumentById_latest
    (id : string) (w : World) (r : option (Doc IDocument)) (w' : World) :
  getDocumentById id w = (Ok r, w') ->
  match r with
  | Some d =>
      In d (documents (db w)) /\ doc_id (fields d) = id /\
      forall x, In x (documents (db w)) -> doc_id (fields x) = id ->
                (doc_createdAt (fields x) <= doc_createdAt (fields d))%Z
  | None => forall x, In x (documents (db w)) -> doc_id (fields x) <> id
  end.
Proof.
  intros H. apply getDocumentById_Ok in H. subst r.
  set (le := fun a b : Doc IDocument =>
               (doc_createdAt (fields b) <=? doc_createdAt (fields a))%Z).
  set (mine := filter (fun d => doc_id (fields d) =? id) (documents (db w))).
  assert (S : StronglySorted (fun a b => le a b = true) (sortBy le mine)).
  { apply sortBy_sorted.
    - intros a b. unfold le.
      destruct (Z.leb_spec (doc_createdAt (fields b)) (doc_createdAt (fields a)));
        [now left | right; apply Z.leb_le; lia].
    - intros a b c E1 E2. unfold le in *. apply Z.leb_le in E1, E2. apply Z.leb_le. lia. }
  pose proof (fun x => In_sortBy le x mine) as I.
  destruct (sortBy le mine) as [|d l] eqn:E; simpl.
  - intros x Hx Ex.
    assert (X : In x mine).
    { apply filter_In. split; [exact Hx|]. now apply String.eqb_eq. }
    apply I in X. destruct X.
  - assert (Hd : In d mine) by (apply I; now left).
    apply filter_In in Hd. destruct Hd as (Hd & Ed). apply String.eqb_eq in Ed.
    split; [exact Hd|]. split; [exact Ed|].
    intros x Hx Ex.
    assert (X : In x mine).
    { apply filter_In. split; [exact Hx|]. now apply String.eqb_eq. }
    apply I in X. inversion S as [|? ? _ Hl]; subst. rewrite Forall_forall in Hl.
    destruct X as [<-|X]; [lia|].
    specialize (Hl x X). unfold le in Hl. now apply Z.leb_le in Hl.
Qed.

Lemma getDocumentById_latest_witness :
  let out := getDocumentById "doc1" (world sampleDb []) in
  exists d,
    fst out = Ok (Some d) /\
    In d (documents sampleDb) /\ doc_id (fields d) = "doc1" /\
    forall x, In x (documents sampleDb) -> doc_id (fields x) = "doc1" ->
              (doc_createdAt (fields x) <= doc_createdAt (fields d))%Z.
Proof.
  intros out.
  exists {| _id := "f1";
            fields := {| doc_id := "doc1"; doc_createdAt := 500%Z; doc_title := "notes";
                         doc_content := Some "draft"; doc_kind := text;
                         doc_userId := "u1" |} |}.
  split; [reflexivity|].
  exact (getDocumentById_latest "doc1" (world sampleDb [])
           (Some {| _id := "f1";
                    fields := {| doc_id := "doc1"; doc_createdAt := 500%Z;
                                 doc_title := "notes"; doc_content := Some "draft";
                                 doc_kind := text; doc_userId := "u1" |} |})
           (snd out) eq_refl).
Defined.

Lemma deleteDocumentsByIdAfterTimestamp_Ok id timestamp w r w' :
  deleteDocumentsByIdAfterTimestamp id timestamp w = (Ok r, w') ->
  db w' =
  setColl Document
    (filter (fun d => negb ((doc_id (fields d) =? id)
                            && (timestamp <? doc_createdAt (fields d))%Z))
            (documents (db w)))
    (setColl Suggestion
       (filter (fun s => negb ((sug_documentId (fields s) =? id)
                               && (timestamp <? sug_documentCreatedAt (fields s))%Z))
               (suggestions (db w)))
       (db w)) /\
  r = (if Nat.ltb 0 (length (filter (fun d => (doc_id (fields d) =? id)
                                              && (timestamp <? doc_createdAt (fields d))%Z)
                                    (documents (db w))))
       then Some id else None).
Proof.
  intros H. unfold deleteDocumentsByIdAfterTimestamp in H.
  peel H. peel H. peel H. peel H.
  apply deleteMany_Ok in Hstep. destruct Hstep as (D1 & _).
  apply deleteMany_Ok in Hstep0. destruct Hstep0 as (D2 & N).
  subst w' r a0. rewrite D2, D1. simpl. auto.
Qed.

(** X22. [deleteDocumentsByIdAfterTimestamp] keeps what it should: when it
    returns, every document and suggestion of another document id, or at or
    before the timestamp, is still stored; a store in which every
    suggestion pointed at a stored document version is still such a store;
    and the result is [{ id }] exactly when a document was deleted. *)
Theorem deleteDocumentsByIdAfterTimestamp_keeps
    (id : string) (timestamp : Date) (w : World) (r : option string) (w' : World) :
  deleteDocumentsByIdAfterTimestamp id timestamp w = (Ok r, w') ->
  (forall d, In d (documents (db w)) ->
     doc_id (fields d) <> id \/ (doc_createdAt (fields d) <= timestamp)%Z ->
     In d (documents (db w'))) /\
  (forall s, In s (suggestions (db w)) ->
     sug_documentId (fields s) <> id \/ (sug_documentCreatedAt (fields s) <= timestamp)%Z ->
     In s (suggestions (db w'))) /\
  (suggestionsAnchored (db w) -> suggestionsAnchored (db w')) /\
  (r = Some id <->
   exists d, In d (documents (db w)) /\ doc_id (fields d) = id /\
             (timestamp < doc_createdAt (fields d))%Z).
Proof.
  intros H. apply deleteDocumentsByIdAfterTimestamp_Ok in H. destruct H as (D & R).
  assert (KeepD : forall d, In d (documents (db w)) ->
            doc_id (fields d) <> id \/ (doc_createdAt (fields d) <= timestamp)%Z ->
            In d (documents (db w'))).
  { intros d Hd K. rewrite D. simpl. apply filter_In. split; [exact Hd|].
    apply negb_true_iff, andb_false_iff.
    destruct K as [K|K]; [left; now apply String.eqb_neq | right; now apply Z.ltb_ge]. }
  split; [exact KeepD|]. split; [| split].
  - intros s Hs K. rewrite D. simpl. apply filter_In. split; [exact Hs|].
    apply negb_true_iff, andb_false_iff.
    destruct K as [K|K]; [left; now apply String.eqb_neq | right; now apply Z.ltb_ge].
  - intros A s Hs. rewrite D in Hs. simpl in Hs.
    apply filter_In in Hs. destruct Hs as (Hs & K).
    destruct (A s Hs) as (x & Hx & Ei & Et).
    exists x. split; [|auto]. apply KeepD; [exact Hx|].
    apply negb_true_iff, andb_false_iff in K. rewrite Ei, Et.
    destruct K as [K|K]; [left; now apply String.eqb_neq | right; now apply Z.ltb_ge].
  - rewrite R.
    destruct (filter (fun d0 => (doc_id (fields d0) =? id)
                                && (timestamp <? doc_createdAt (fields d0))%Z)
                     (documents (db w))) as [|d l] eqn:F; simpl.
    + split; [discriminate|]. intros (d & Hd & Ei & Et). exfalso.
      assert (X : In d (filter (fun d0 => (doc_id (fields d0) =? id)
                                          && (timestamp <? doc_createdAt (fields d0))%Z)
                               (documents (db w)))).
      { apply filter_In. split; [exact Hd|].
        apply andb_true_iff. split; [now apply String.eqb_eq | now apply Z.ltb_lt]. }
      rewrite F in X. destruct X.
    + split; [intros _ | reflexivity].
      assert (X : In d (d :: l)) by now left.
      rewrite <- F in X. apply filter_In in X. destruct X as (Hd & K).
      apply andb_true_iff in K. destruct K as (K1 & K2).
      exists d. split; [exact Hd|].
      split; [now apply String.eqb_eq | now apply Z.ltb_lt].
Qed.

Lemma deleteDocumentsByIdAfterTimestamp_keeps_witness :
  let w := world sampleDb [] in
  let out := deleteDocumentsByIdAfterTimestamp "doc1" 500%Z w in
  fst out = Ok None /\
  (forall d, In d (documents (db w)) ->
     doc_id (fields d) <> "doc1" \/ (doc_createdAt (fields d) <= 500)%Z ->
     In d (documents (db (snd out)))).
Proof.
  intros w out. split; [reflexivity|].
  destruct (deleteDocumentsByIdAfterTimestamp_keeps "doc1" 500%Z w None (snd out) eq_refl)
    as (H & _).
  exact H.
Defined.

(** X23. [deleteChatById] leaves no dangling reference behind: when it
    returns on a store in which every vote, message and stream named a
    stored chat, the store it leaves is still such a store. *)
Theorem deleteChatById_keeps_references
    (id : string) (w : World) (r : option string) (w' : World) :
  deleteChatById id w = (Ok r, w') ->
  chatsReferenced (db w) -> chatsReferenced (db w').
Proof.
  intros H (Rv & Rm & Rs). apply deleteChatById_Ok in H. destruct H as (D & _).
  assert (Keep : forall c k, In c (chats (db w)) -> chat_id (fields c) = k ->
                             (k =? id) = false -> In c (chats (db w'))).
  { intros c k Hc Ek Ne. rewrite D. simpl.
    apply removeFirst_keeps; [exact Hc|]. now rewrite Ek. }
  unfold chatsReferenced. rewrite D. simpl. rewrite D in Keep. simpl in Keep.
  split; [| split].
  - intros v Hv. apply filter_In in Hv. destruct Hv as (Hv & K).
    apply negb_true_iff in K. destruct (Rv v Hv) as (c & Hc & Ec). eauto.
  - intros m Hm. apply filter_In in Hm. destruct Hm as (Hm & K).
    apply negb_true_iff in K. destruct (Rm m Hm) as (c & Hc & Ec). eauto.
  - intros s Hs. apply filter_In in Hs. destruct Hs as (Hs & K).
    apply negb_true_iff in K. destruct (Rs s Hs) as (c & Hc & Ec). eauto.
Qed.

Lemma deleteChatById_keeps_references_witness :
  let w := world sampleDb [] in
  let out := deleteChatById "c1" w in
  fst out = Ok (Some "c1") /\ chatsReferenced (db w) /\ chatsReferenced (db (snd out)).
Proof.
  intros w out. split; [reflexivity|].
  assert (R : chatsReferenced (db w)).
  { unfold chatsReferenced. simpl. split; [| split].
    - intros v [<-|[]]. exists (chatOf "b1" "c1" 100 "u1"). simpl. auto.
    - intros m [<-|[<-|[]]]; exists (chatOf "b1" "c1" 100 "u1"); simpl; auto.
    - intros s [<-|[]]. exists (chatOf "b1" "c1" 100 "u1"). simpl. auto. }
  split; [exact R|].
  exact (deleteChatById_keeps_references "c1" w (Some "c1") (snd out) eq_refl R).
Defined.

Lemma getSuggestionsByDocumentId_Ok documentId w r w' :
  getSuggestionsByDocumentId documentId w = (Ok r, w') ->
  r = filter (fun s => sug_documentId (fields s) =? documentId) (suggestions (db w)).
Proof.
  unfold getSuggestionsByDocumentId. intros H. peel H. apply exec_Ok in H. tauto.
Qed.

(** X24. After [saveSuggestions] returned, [getSuggestionsByDocumentId]
    returns the suggestions the document had, followed by the saved ones
    that are on the document, in the order they were handed in. *)
Theorem saveSuggestions_then_getSuggestionsByDocumentId
    (suggestions_ : list ISuggestion) (documentId : string)
    (w : World) (ds : list (Doc ISuggestion)) (w1 w2 : World)
    (r : list (Doc ISuggestion)) (w3 : World) :
  saveSuggestions suggestions_ w = (Ok ds, w1) ->
  db w2 = db w1 ->
  getSuggestionsByDocumentId documentId w2 = (Ok r, w3) ->
  map fields ds = suggestions_ /\
  r = filter (fun s => sug_documentId (fields s) =? documentId) (suggestions (db w))
      ++ filter (fun s => sug_documentId (fields s) =? documentId) ds /\
  map fields (filter (fun s => sug_documentId (fields s) =? documentId) ds) =
    filter (fun s => sug_documentId s =? documentId) suggestions_.
Proof.
  intros H1 E H2.
  unfold saveSuggestions in H1. peel H1.
  apply insertMany_Ok in H1;
    [| intros c0 d0; reflexivity
     | intros i a C; simpl in C; apply validated_inr in C; now symmetry ].
  destruct H1 as (F & D).
  apply getSuggestionsByDocumentId_Ok in H2. subst r. simpl in D. rewrite E, D.
  split; [exact F|]. split; [apply filter_app|].
  rewrite <- F. clear. induction ds as [|d ds IH]; simpl; [reflexivity|].
  destruct (sug_documentId (fields d) =? documentId); simpl; now rewrite IH.
Qed.

Lemma saveSuggestions_then_getSuggestionsByDocumentId_witness :
  let w := world sampleDb [] in
  let new := {| sug_id := "s2"; sug_documentId := "doc1"; sug_documentCreatedAt := 500%Z;
                sug_originalText := "recieve"; sug_suggestedText := "receive";
                sug_description := None; sug_isResolved := false; sug_userId := "u1";
                sug_createdAt := 520%Z |} in
  let saved := saveSuggestions [new] w in
  let got := getSuggestionsByDocumentId "doc1" (snd saved) in
  fst got = Ok (suggestions sampleDb ++ [ {| _id := newObjectId sampleEnv 0; fields := new |} ]) /\
  map fields [ {| _id := newObjectId sampleEnv 0; fields := new |} ] = [new].
Proof.
  intros w new saved got. split; [reflexivity|].
  destruct (saveSuggestions_then_getSuggestionsByDocumentId [new] "doc1" w
              [ {| _id := newObjectId sampleEnv 0; fields := new |} ]
              (snd saved) (snd saved)
              (suggestions sampleDb ++ [ {| _id := newObjectId sampleEnv 0; fields := new |} ])
              (snd got) eq_refl eq_refl eq_refl) as (H & _).
  exact H.
Defined.

(** ** The unique indexes, over the whole API *)

(** X25. Every exported function keeps every unique index the schemas
    declare, whether it returns or raises; hence they hold in every state
    the API brings an empty store to. *)
Theorem unique_indexes_invariant {A : Type} (c : Call A) (w : World) :
  uniqueIndexes (db w) ->
  uniqueIndexes (db (snd (run c w))) /\
  (forall d, reachable d -> uniqueIndexes d).
Proof.
  intros U. split; [now apply uniqueIndexes_run | apply reachable_uniqueIndexes].
Qed.

Lemma unique_indexes_invariant_witness :
  let w := world emptyDb [] in
  uniqueIndexes (db w) /\
  uniqueIndexes (db (snd (run (SaveChat "c1" "u1" "plans" private) w))) /\
  chats (db (snd (run (SaveChat "c1" "u1" "plans" private) w))) =
    [ {| _id := newObjectId sampleEnv 0;
         fields := {| chat_id := "c1"; chat_createdAt := clock w; chat_title := "plans";
                      chat_userId := "u1"; chat_visibility := private |} |} ].
Proof.
  intros w.
  assert (U : uniqueIndexes (db w)) by apply uniqueIndexes_emptyDb.
  split; [exact U|].
  destruct (unique_indexes_invariant (SaveChat "c1" "u1" "plans" private) w U) as (H & _).
  split; [exact H | reflexivity].
Defined.
